(** * The MotherDuck/DuckDB tool server: connection lifecycle and tool dispatch

    A shallow embedding of the [CallToolRequestSchema] handler of
    [motherduck.ts] (the module that [stdio.ts] and [sse.ts] import
    [createServer] from), together with the two module-level variables
    [instance] and [connection] it reads and writes.

    Conventions of the embedding.
    - A JavaScript string is modelled by the bytes of its UTF-8 encoding
      (strings with unpaired surrogates have none and are outside the
      model).  [trim] removes every white space and line terminator
      character of ECMAScript, each in its UTF-8 form.  [toUpperCase]
      maps the letters a-z and leaves every other byte as it is; see the
      note at its definition.
    - The handler is [async]; every [await] is on an engine primitive.  The
      embedding runs one request to completion before the next one starts
      (no interleaving of two handlers at an [await]).
    - The database engine ([@duckdb/node-api]) is a parameter: an [Engine]
      gives the three primitives the handler calls, as functions on an
      opaque engine-side state.
    - A thrown exception does not roll anything back: the monad [M] keeps
      the state reached when the exception was thrown. *)

From Stdlib Require Import ZArith Ascii String.
From stdpp Require Import base option strings list gmap.

Set Warnings "-register-all,-clear-no-such-hyp".
Local Open Scope string_scope.
Local Open Scope list_scope.

(** ** Strings *)

Module JsString.

(** the line feed written [\n] in the source's literals *)
Definition LF : string := String "010"%char "".
(** the double quote, for messages that contain one *)
Definition DQ : string := String (ascii_of_nat 34) "".

Definition toUpperCase_char (c : ascii) : ascii :=
  let n := nat_of_ascii c in
  if (97 <=? n)%nat && (n <=? 122)%nat then ascii_of_nat (n - 32) else c.

(** [String.prototype.toUpperCase] on the letters a-z; every other byte is
    left as it is.  The handler only compares the result with [DUCKDB] and
    [MOTHERDUCK].  The characters outside a-z whose upper case in Unicode
    is made of ASCII letters alone are U+0131 (I), U+017F (S), U+00DF (SS)
    and the ligatures U+FB00 to U+FB06 (FF, FI, FL, FFI, FFL, ST, ST):
    none of them gives a letter sequence of these two words, so the
    comparison comes out the same. *)
Fixpoint toUpperCase (s : string) : string :=
  match s with
  | EmptyString => EmptyString
  | String c r => String (toUpperCase_char c) (toUpperCase r)
  end.

(** The code points that [String.prototype.trim] removes: WhiteSpace and
    LineTerminator of ECMAScript.  In order: TAB, LF, VT, FF, CR, SPACE,
    U+00A0 (no-break space), U+1680, U+2000 to U+200A, U+2028 (line
    separator), U+2029 (paragraph separator), U+202F, U+205F, U+3000 and
    U+FEFF (byte order mark). *)
Definition whiteSpaceCodePoints : list N :=
  [9; 10; 11; 12; 13; 32; 160; 5760;
   8192; 8193; 8194; 8195; 8196; 8197; 8198; 8199; 8200; 8201; 8202;
   8232; 8233; 8239; 8287; 12288; 65279]%N.

(** the UTF-8 encoding of a code point below U+10000 *)
Definition utf8 (cp : N) : list ascii :=
  if (cp <? 128)%N then [ascii_of_N cp]
  else if (cp <? 2048)%N
       then [ascii_of_N (192 + cp / 64); ascii_of_N (128 + cp mod 64)]
       else [ascii_of_N (224 + cp / 4096);
             ascii_of_N (128 + (cp / 64) mod 64);
             ascii_of_N (128 + cp mod 64)].

(** the white space characters, as byte sequences *)
Definition whiteSpace : list (list ascii) := map utf8 whiteSpaceCodePoints.

(** [strip prefix s]: what follows [prefix] in [s], when [s] starts with it *)
Fixpoint strip (prefix s : list ascii) : option (list ascii) :=
  match prefix, s with
  | [], _ => Some s
  | a :: prefix', b :: s' => if Ascii.eqb a b then strip prefix' s' else None
  | _ :: _, [] => None
  end.

(** what follows the first of [sequences] that [s] starts with *)
Fixpoint strip_any (sequences : list (list ascii)) (s : list ascii)
  : option (list ascii) :=
  match sequences with
  | [] => None
  | e :: rest =>
      match strip e s with
      | Some r => Some r
      | None => strip_any rest s
      end
  end.

(** [s] without the [sequences] it starts with, one after the other; the
    fuel bounds their number *)
Fixpoint drop_leading (sequences : list (list ascii)) (fuel : nat) (s : list ascii)
  : list ascii :=
  match fuel with
  | O => s
  | S fuel' =>
      match strip_any sequences s with
      | Some r => drop_leading sequences fuel' r
      | None => s
      end
  end.

Definition trimStart_bytes (s : list ascii) : list ascii :=
  drop_leading whiteSpace (length s) s.

(** at the end of [s]: the same on the reversed bytes.  In UTF-8 a
    character can only end where its whole encoding ends, so a white space
    encoding at the end of the bytes is a white space character at the end
    of the string. *)
Definition trimEnd_bytes (s : list ascii) : list ascii :=
  rev (drop_leading (map (@rev ascii) whiteSpace) (length s) (rev s)).

Definition trimStart (s : string) : string :=
  string_of_list_ascii (trimStart_bytes (list_ascii_of_string s)).

Definition trimEnd (s : string) : string :=
  string_of_list_ascii (trimEnd_bytes (list_ascii_of_string s)).

(** [String.prototype.trim] *)
Definition trim (s : string) : string :=
  string_of_list_ascii (trimEnd_bytes (trimStart_bytes (list_ascii_of_string s))).

(** [bytes] is made of [sequences], one after the other *)
Definition made_of (sequences : list (list ascii)) (bytes : list ascii) : Prop :=
  ∃ parts, Forall (fun e => e ∈ sequences) parts ∧ bytes = concat parts.

(** [Array.prototype.join] on an array of strings *)
Fixpoint join (sep : string) (l : list string) : string :=
  match l with
  | [] => ""
  | [x] => x
  | x :: r => x +:+ sep +:+ join sep r
  end.

End JsString.
Import JsString.

(** ** Untyped values and the input schemas (zod) *)

(** A value as it arrives in [request.params.arguments]. *)
Inductive jsval : Type :=
| JUndefined
| JNull
| JBool (b : bool)
| JNumber (n : Z)
| JString (s : string)
| JArray (l : list jsval)
| JObject (fields : list (string * jsval)).

(** [request.params.arguments]: a record of unknown values, or [undefined]. *)
Abbreviation arguments := (option (gmap string jsval)).

Module Zod.

Inductive ZodParsedType : Type :=
| undefined | null | boolean | number | string_ | array | object.

Definition getParsedType (v : jsval) : ZodParsedType :=
  match v with
  | JUndefined => undefined
  | JNull => null
  | JBool _ => boolean
  | JNumber _ => number
  | JString _ => string_
  | JArray _ => array
  | JObject _ => object
  end.

(** an [invalid_type] issue; a missing required field is reported as
    [received := undefined] *)
Record ZodIssue : Type := {
  path : list string;
  expected : ZodParsedType;
  received : ZodParsedType
}.

(** [z.object({ k1: z.string(), ..., kn: z.string() })], given by the keys
    of its shape.  All three schemas of the source have this form. *)
Definition ZodObject : Type := list string.

(** The fields of the shape, checked one by one against [z.string()].
    The output holds the keys of the shape only: [z.object] strips the
    keys it does not know. *)
Fixpoint parse_shape (shape : ZodObject) (input : gmap string jsval)
  : list ZodIssue * gmap string string :=
  match shape with
  | [] => ([], ∅)
  | k :: ks =>
      let '(issues, out) := parse_shape ks input in
      match input !! k with
      | Some (JString s) => (issues, <[k := s]> out)
      | other =>
          ({| path := [k]; expected := string_;
              received := getParsedType (default JUndefined other) |} :: issues,
           out)
      end
  end.

(** [schema.parse(args)]: the validated object, or the issues of the
    [ZodError] it throws. *)
Definition parse (schema : ZodObject) (args : arguments)
  : list ZodIssue + gmap string string :=
  match args with
  | None => inl [{| path := []; expected := object; received := undefined |}]
  | Some input =>
      match parse_shape schema input with
      | ([], out) => inr out
      | (issues, _) => inl issues
      end
  end.

End Zod.

(** [const XSchema = z.object({ field: z.string() })] *)
Definition InitializeConnectionSchema : Zod.ZodObject := ["type"].
Definition ReadSchemasSchema : Zod.ZodObject := ["database_name"].
Definition ExecuteQuerySchema : Zod.ZodObject := ["query"].


(** whether [schema.parse(args)] returns (rather than throws) *)
Definition valid (schema : Zod.ZodObject) (args : arguments) : bool :=
  match Zod.parse schema args with
  | inr _ => true
  | inl _ => false
  end.

(** ** The engine

    [@duckdb/node-api] as the handler uses it.  Each primitive either
    throws (left: the [message] of what it throws) or returns, and may
    change the engine-side state.

    - [create path] is [DuckDBInstance.create(path)];
    - [connect i] is [i.connect()];
    - [run c sql] is [c.run(sql)];
    - [toString r] is the string a template literal makes of a result;
    - [stringify r] is [JSON.stringify(r, null, 2)], which can throw. *)
Class Engine : Type := {
  World : Type;
  DuckDBInstance : Type;
  DuckDBConnection : Type;
  DuckDBResult : Type;
  create : string → World → (string + DuckDBInstance) * World;
  connect : DuckDBInstance → World → (string + DuckDBConnection) * World;
  run : DuckDBConnection → string → World → (string + DuckDBResult) * World;
  toString : DuckDBResult → string;
  stringify : DuckDBResult → string + string
}.

(** ** What a handler throws and returns *)

(** A thrown value: the [ZodError] of a failed [parse], or an [Error] with
    its message (the handler's own [new Error(...)] and what the engine
    throws). *)
Inductive thrown : Type :=
| ZodError (issues : list Zod.ZodIssue)
| Error (message : string).

(** [error.message] in a [catch].  Every [try] block of the handler holds
    engine calls (and one [JSON.stringify]) only, so a [catch] never
    receives a [ZodError]; the text zod renders its issues to is not
    modelled. *)
Definition message_of (e : thrown) : string :=
  match e with
  | Error m => m
  | ZodError _ => ""
  end.

Record TextContent : Type := { type : string; text : string }.
Record CallToolResult : Type := { content : list TextContent }.

(** The failure kinds of the tool surface, as the values the handler throws. *)
Definition UnsupportedKind : thrown :=
  Error ("Only " +:+ DQ +:+ "DuckDB" +:+ DQ +:+ " or " +:+ DQ +:+ "MotherDuck" +:+ DQ
         +:+ " are supported").
Definition MissingCredential : thrown :=
  Error "Please set the `motherduck_token` environment variable.".
Definition NoActiveSession : thrown :=
  Error "No active database connection. Please initialize one first.".
Definition ConnectionFailed (msg : string) : thrown :=
  Error ("Failed to connect: " +:+ msg).
Definition SchemaReadFailed (msg : string) : thrown :=
  Error ("Failed to read schemas: " +:+ msg).
Definition QueryFailed (msg : string) : thrown :=
  Error ("Error querying the database: " +:+ msg).
Definition UnknownTool (name : string) : thrown :=
  Error ("Unknown tool: " +:+ name).
Definition ValidationError (issues : list Zod.ZodIssue) : thrown :=
  ZodError issues.

(** ** The SQL the handler sends *)

Definition databases_query : string :=
  LF +:+
  "            SELECT string_agg(database_name, '," +:+ LF +:+ "')" +:+ LF +:+
  "            FROM duckdb_databases() " +:+ LF +:+
  "            WHERE database_name NOT IN ('system', 'temp')" +:+ LF +:+
  "          ".

Definition tables_query (database_name : string) : string :=
  LF +:+
  "            SELECT string_agg(regexp_replace(sql, 'CREATE TABLE ', 'CREATE TABLE '||database_name||'.'), '"
    +:+ LF +:+ LF +:+ "') as sql " +:+ LF +:+
  "            FROM duckdb_tables()" +:+ LF +:+
  "            WHERE database_name = '" +:+ database_name +:+ "'" +:+ LF +:+
  "          ".

Definition views_query (database_name : string) : string :=
  LF +:+
  "            SELECT string_agg(regexp_replace(sql, 'CREATE TABLE ', 'CREATE TABLE '||database_name||'.'), '"
    +:+ LF +:+ LF +:+ "') as sql " +:+ LF +:+
  "            FROM duckdb_views()" +:+ LF +:+
  "            WHERE schema_name NOT IN ('information_schema', 'pg_catalog', 'localmemdb')" +:+ LF +:+
  "            AND view_name NOT IN (" +:+ LF +:+
  "              'duckdb_columns','duckdb_constraints','duckdb_databases','duckdb_indexes'," +:+ LF +:+
  "              'duckdb_schemas','duckdb_tables','duckdb_types','duckdb_views','pragma_database_list'," +:+ LF +:+
  "              'sqlite_master','sqlite_schema','sqlite_temp_master','sqlite_temp_schema'" +:+ LF +:+
  "            )" +:+ LF +:+
  "            AND database_name = '" +:+ database_name +:+ "'" +:+ LF +:+
  "          ".

(** ** The process: module state, environment, engine *)

Section Server.
Context `{E : Engine}.

(** [process.env], the two module-level variables
    [let instance: DuckDBInstance | null = null] and
    [let connection: DuckDBConnection | null = null], and the state of
    the engine. *)
Record Process : Type := {
  env : gmap string string;
  instance : option DuckDBInstance;
  connection : option DuckDBConnection;
  world : World
}.

(** The process as the module is loaded: both variables are [null]. *)
Definition start (environment : gmap string string) (w : World) : Process :=
  {| env := environment; instance := None; connection := None; world := w |}.

(** The steps of a handler that the properties below speak about, in the
    order they happen: a [parse] of the arguments (with the schema's
    shape and whether it passed), the test [if (!connection)] (with
    whether a connection was there), and the three engine primitives
    (with what they were called on and what came back). *)
Inductive event : Type :=
| EParse (schema : Zod.ZodObject) (ok : bool)
| ESessionCheck (present : bool)
| ECreate (path : string) (r : string + DuckDBInstance)
| EConnect (i : DuckDBInstance) (r : string + DuckDBConnection)
| ERun (c : DuckDBConnection) (sql : string) (r : string + DuckDBResult).

Definition is_engine_event (e : event) : bool :=
  match e with
  | ECreate _ _ | EConnect _ _ | ERun _ _ _ => true
  | EParse _ _ | ESessionCheck _ => false
  end.

Definition is_created (e : event) : bool :=
  match e with
  | ECreate _ (inr _) => true
  | _ => false
  end.

(** *** The monad of handlers: state, exceptions, and the log of steps *)

Record Run (A : Type) : Type := {
  outcome : thrown + A;
  final : Process;
  events : list event
}.
Arguments outcome {A} _.
Arguments final {A} _.
Arguments events {A} _.

Definition M (A : Type) : Type := Process → Run A.

Definition ret {A} (a : A) : M A :=
  fun p => {| outcome := inr a; final := p; events := [] |}.

(** [throw e] *)
Definition throw {A} (e : thrown) : M A :=
  fun p => {| outcome := inl e; final := p; events := [] |}.

Definition bind {A B} (m : M A) (f : A → M B) : M B :=
  fun p =>
    let r := m p in
    match outcome r with
    | inl e => {| outcome := inl e; final := final r; events := events r |}
    | inr a =>
        let r' := f a (final r) in
        {| outcome := outcome r'; final := final r';
           events := events r ++ events r' |}
    end.

(** [try { m } catch (error) { h error }] *)
Definition try_catch {A} (m : M A) (h : thrown → M A) : M A :=
  fun p =>
    let r := m p in
    match outcome r with
    | inl e =>
        let r' := h e (final r) in
        {| outcome := outcome r'; final := final r';
           events := events r ++ events r' |}
    | inr _ => r
    end.

Notation "'let*' x ':=' m 'in' k" := (bind m (fun x => k))
  (at level 10, x name, m at level 100, k at level 200).
Notation "'do*' m 'in' k" := (bind m (fun _ => k))
  (at level 10, m at level 100, k at level 200).

Definition when_ (b : bool) (m : M unit) : M unit :=
  if b then m else ret tt.

(** *** Reading and writing the module state *)

(** [!process.env.motherduck_token]: true when the variable is unset or
    set to the empty string *)
Definition no_token (environment : gmap string string) : bool :=
  match environment !! "motherduck_token" with
  | None => true
  | Some s => bool_decide (s = "")
  end.

Definition read_env : M (gmap string string) :=
  fun p => {| outcome := inr (env p); final := p; events := [] |}.

Definition read_instance : M (option DuckDBInstance) :=
  fun p => {| outcome := inr (instance p); final := p; events := [] |}.

Definition set_instance (p : Process) (i : DuckDBInstance) : Process :=
  {| env := env p; instance := Some i; connection := connection p; world := world p |}.

Definition set_connection (p : Process) (c : DuckDBConnection) : Process :=
  {| env := env p; instance := instance p; connection := Some c; world := world p |}.

Definition with_world (p : Process) (w : World) : Process :=
  {| env := env p; instance := instance p; connection := connection p; world := w |}.

(** [instance = i] *)
Definition write_instance (i : DuckDBInstance) : M unit :=
  fun p => {| outcome := inr tt; final := set_instance p i; events := [] |}.

(** [connection = c] *)
Definition write_connection (c : DuckDBConnection) : M unit :=
  fun p => {| outcome := inr tt; final := set_connection p c; events := [] |}.

(** the value of [connection] at a test [if (!connection)] *)
Definition check_connection : M (option DuckDBConnection) :=
  fun p => {| outcome := inr (connection p); final := p;
              events := [ESessionCheck (bool_decide (is_Some (connection p)))] |}.

(** [Schema.parse(args)] *)
Definition parse (schema : Zod.ZodObject) (args : arguments) : M (gmap string string) :=
  fun p =>
    match Zod.parse schema args with
    | inl issues => {| outcome := inl (ZodError issues); final := p;
                       events := [EParse schema false] |}
    | inr v => {| outcome := inr v; final := p; events := [EParse schema true] |}
    end.

(** *** The engine primitives, awaited *)

Definition settle {A} (r : string + A) : thrown + A :=
  match r with
  | inl msg => inl (Error msg)
  | inr a => inr a
  end.

Definition DuckDBInstance_create (path : string) : M DuckDBInstance :=
  fun p =>
    let '(r, w) := create path (world p) in
    {| outcome := settle r; final := with_world p w; events := [ECreate path r] |}.

Definition instance_connect (i : DuckDBInstance) : M DuckDBConnection :=
  fun p =>
    let '(r, w) := connect i (world p) in
    {| outcome := settle r; final := with_world p w; events := [EConnect i r] |}.

Definition connection_run (c : DuckDBConnection) (sql : string) : M DuckDBResult :=
  fun p =>
    let '(r, w) := run c sql (world p) in
    {| outcome := settle r; final := with_world p w; events := [ERun c sql r] |}.

(** [JSON.stringify(results, null, 2)] *)
Definition JSON_stringify (r : DuckDBResult) : M string :=
  fun p => {| outcome := settle (stringify r); final := p; events := [] |}.

(** ** The tool handlers *)

(** [if (!instance) { instance = await DuckDBInstance.create(':memory:'); }],
    and the instance that [instance] holds after it *)
Definition acquire_instance : M DuckDBInstance :=
  let* held := read_instance in
  match held with
  | None =>
      let* created := DuckDBInstance_create ":memory:" in
      do* write_instance created in
      ret created
  | Some i => ret i
  end.

(** the [try { ... } catch (error) { ... }] of initialize-connection *)
Definition establish (dbType : string) : M CallToolResult :=
  try_catch
    (let* i := acquire_instance in
     let* c := instance_connect i in
     do* write_connection c in
     let* databases := connection_run c databases_query in
     ret {| content :=
              [ {| type := "text";
                   text := "Connection to " +:+ dbType
                           +:+ " successfully established. Here are the available databases: "
                           +:+ LF +:+ toString databases |} ] |})
    (fun error => throw (Error ("Failed to connect: " +:+ message_of error))).

(** [case 'initialize-connection'] *)
Definition initialize_connection (args : arguments) : M CallToolResult :=
  let* validated := parse InitializeConnectionSchema args in
  let type := validated !!! "type" in
  let dbType := toUpperCase (trim type) in
  do* when_ (negb (bool_decide (dbType ∈ ["DUCKDB"; "MOTHERDUCK"])))
            (throw UnsupportedKind) in
  let* environment := read_env in
  do* when_ (bool_decide (dbType = "MOTHERDUCK") && no_token environment)
            (throw MissingCredential) in
  establish dbType.

(** [case 'read-schemas'] *)
Definition read_schemas (args : arguments) : M CallToolResult :=
  let* held := check_connection in
  match held with
  | None => throw NoActiveSession
  | Some c =>
      let* validated := parse ReadSchemasSchema args in
      let database_name := validated !!! "database_name" in
      try_catch
        (let* tables := connection_run c (tables_query database_name) in
         let* views := connection_run c (views_query database_name) in
         ret {| content :=
                  [ {| type := "text";
                       text := "Here are all tables: " +:+ LF +:+ toString tables
                               +:+ " " +:+ LF +:+ LF +:+ " Here are all views: "
                               +:+ toString views |} ] |})
        (fun error => throw (Error ("Failed to read schemas: " +:+ message_of error)))
  end.

(** [case 'execute-query'] *)
Definition execute_query (args : arguments) : M CallToolResult :=
  let* held := check_connection in
  match held with
  | None => throw NoActiveSession
  | Some c =>
      let* validated := parse ExecuteQuerySchema args in
      let query := validated !!! "query" in
      try_catch
        (let* results := connection_run c query in
         let* serialized := JSON_stringify results in
         ret {| content := [ {| type := "text"; text := serialized |} ] |})
        (fun error =>
           throw (Error ("Error querying the database: " +:+ message_of error)))
  end.

(** The handler registered for [CallToolRequestSchema]: the [switch] on
    the tool's name. *)
Definition callTool (name : string) (args : arguments) : M CallToolResult :=
  if bool_decide (name = "initialize-connection") then initialize_connection args
  else if bool_decide (name = "read-schemas") then read_schemas args
  else if bool_decide (name = "execute-query") then execute_query args
  else throw (Error ("Unknown tool: " +:+ name)).

(** *** A server handling requests one after the other *)

Record Request : Type := { name : string; args : arguments }.

(** The process after a sequence of requests, and every step taken. *)
Fixpoint serve (requests : list Request) (p : Process) : Process * list event :=
  match requests with
  | [] => (p, [])
  | rq :: rest =>
      let r := callTool (name rq) (args rq) p in
      let '(p', log) := serve rest (final r) in
      (p', (events r ++ log)%list)
  end.

(** *** The runs of the [try] block of initialize-connection

    [acquired p i p1 log]: from [p], [acquire_instance] yields [i] and
    leaves [p1], having taken the steps [log]. *)
Inductive acquired (p : Process) : DuckDBInstance → Process → list event → Prop :=
| acquired_held i :
    instance p = Some i →
    acquired p i p []
| acquired_created i w :
    instance p = None →
    create ":memory:" (world p) = (inr i, w) →
    acquired p i (set_instance (with_world p w) i) [ECreate ":memory:" (inr i)].

(** the four ways [establish dbType] can run from [p] *)
Inductive established (dbType : string) (p : Process) : Run CallToolResult → Prop :=
| create_threw msg w :
    instance p = None →
    create ":memory:" (world p) = (inl msg, w) →
    established dbType p
      {| outcome := inl (ConnectionFailed msg);
         final := with_world p w;
         events := [ECreate ":memory:" (inl msg)] |}
| connect_threw i p1 log msg w :
    acquired p i p1 log →
    connect i (world p1) = (inl msg, w) →
    established dbType p
      {| outcome := inl (ConnectionFailed msg);
         final := with_world p1 w;
         events := log ++ [EConnect i (inl msg)] |}
| run_threw i p1 log c w msg w' :
    acquired p i p1 log →
    connect i (world p1) = (inr c, w) →
    run c databases_query w = (inl msg, w') →
    established dbType p
      {| outcome := inl (ConnectionFailed msg);
         final := with_world (set_connection (with_world p1 w) c) w';
         events := log ++ [EConnect i (inr c); ERun c databases_query (inl msg)] |}
| session_opened i p1 log c w databases w' :
    acquired p i p1 log →
    connect i (world p1) = (inr c, w) →
    run c databases_query w = (inr databases, w') →
    established dbType p
      {| outcome :=
           inr {| content :=
                    [ {| type := "text";
                         text := "Connection to " +:+ dbType
                                 +:+ " successfully established. Here are the available databases: "
                                 +:+ LF +:+ toString databases |} ] |};
         final := with_world (set_connection (with_world p1 w) c) w';
         events := log ++ [EConnect i (inr c); ERun c databases_query (inr databases)] |}.

(** *** Notions the properties are stated with *)

(** a run with one more step in front *)
Definition after {A} (e : event) (r : Run A) : Run A :=
  {| outcome := outcome r; final := final r; events := e :: events r |}.

(** how many engine instances a log shows being created *)
Definition created_count (log : list event) : nat :=
  length (List.filter is_created log).

(** how many engine instances may still be created: one while [instance]
    is [null], none afterwards *)
Definition creations_left (p : Process) : nat :=
  match instance p with
  | None => 1
  | Some _ => 0
  end.

(** the process with the credential variable removed from its environment *)
Definition unset_token (p : Process) : Process :=
  {| env := delete "motherduck_token" (env p); instance := instance p;
     connection := connection p; world := world p |}.

(** the four ways initialize-connection can run from [p] on [a] *)
Inductive initialized (a : arguments) (p : Process) : Run CallToolResult → Prop :=
| init_invalid issues :
    Zod.parse InitializeConnectionSchema a = inl issues →
    initialized a p
      {| outcome := inl (ValidationError issues); final := p;
         events := [EParse InitializeConnectionSchema false] |}
| init_unsupported validated :
    Zod.parse InitializeConnectionSchema a = inr validated →
    toUpperCase (trim (validated !!! "type")) ∉ ["DUCKDB"; "MOTHERDUCK"] →
    initialized a p
      {| outcome := inl UnsupportedKind; final := p;
         events := [EParse InitializeConnectionSchema true] |}
| init_no_credential validated :
    Zod.parse InitializeConnectionSchema a = inr validated →
    toUpperCase (trim (validated !!! "type")) = "MOTHERDUCK" →
    no_token (env p) = true →
    initialized a p
      {| outcome := inl MissingCredential; final := p;
         events := [EParse InitializeConnectionSchema true] |}
| init_established validated r :
    Zod.parse InitializeConnectionSchema a = inr validated →
    toUpperCase (trim (validated !!! "type")) ∈ ["DUCKDB"; "MOTHERDUCK"] →
    established (toUpperCase (trim (validated !!! "type"))) p r →
    initialized a p (after (EParse InitializeConnectionSchema true) r).

(** [r] starts with the validation against [schema]; nothing but engine
    calls follows, and nothing at all when the validation fails: the
    call then throws the validation error and changes nothing *)
Definition validated_first (schema : Zod.ZodObject) (a : arguments) (p : Process)
    (r : Run CallToolResult) : Prop :=
  ∃ rest,
    events r = EParse schema (valid schema a) :: rest ∧
    Forall (fun e => is_engine_event e = true) rest ∧
    (valid schema a = false →
       rest = [] ∧ final r = p ∧ ∃ issues, outcome r = inl (ValidationError issues)).

(** [r] starts with the test of [connection]; without a connection it
    stops there with NoActiveSession; with one, the validation against
    [schema] comes next, as in [validated_first] *)
Definition session_gated (schema : Zod.ZodObject) (a : arguments) (p : Process)
    (r : Run CallToolResult) : Prop :=
  match connection p with
  | None =>
      outcome r = inl NoActiveSession ∧ events r = [ESessionCheck false] ∧ final r = p
  | Some _ =>
      ∃ rest,
        events r = ESessionCheck true :: EParse schema (valid schema a) :: rest ∧
        Forall (fun e => is_engine_event e = true) rest ∧
        (valid schema a = false →
           rest = [] ∧ final r = p ∧ ∃ issues, outcome r = inl (ValidationError issues))
  end.

(** the first step of [r] is a validation of the arguments *)
Definition validation_is_first_step (r : Run CallToolResult) : Prop :=
  ∃ schema ok rest, events r = EParse schema ok :: rest.

End Server.

Arguments outcome {E A} _.
Arguments final {E A} _.
Arguments events {E A} _.
Arguments after {E A} _ _.

(** ** The runs of read-schemas and execute-query *)

Section Runs.
Context `{E : Engine}.

(** the five ways execute-query can run from [p] on [a] *)
Inductive queried (a : arguments) (p : Process) : Run CallToolResult → Prop :=
| query_no_session :
    connection p = None →
    queried a p
      {| outcome := inl NoActiveSession; final := p; events := [ESessionCheck false] |}
| query_invalid c issues :
    connection p = Some c →
    Zod.parse ExecuteQuerySchema a = inl issues →
    queried a p
      {| outcome := inl (ValidationError issues); final := p;
         events := [ESessionCheck true; EParse ExecuteQuerySchema false] |}
| query_threw c validated msg w :
    connection p = Some c →
    Zod.parse ExecuteQuerySchema a = inr validated →
    run c (validated !!! "query") (world p) = (inl msg, w) →
    queried a p
      {| outcome := inl (QueryFailed msg); final := with_world p w;
         events := [ESessionCheck true; EParse ExecuteQuerySchema true;
                    ERun c (validated !!! "query") (inl msg)] |}
| query_unserializable c validated results w msg :
    connection p = Some c →
    Zod.parse ExecuteQuerySchema a = inr validated →
    run c (validated !!! "query") (world p) = (inr results, w) →
    stringify results = inl msg →
    queried a p
      {| outcome := inl (QueryFailed msg); final := with_world p w;
         events := [ESessionCheck true; EParse ExecuteQuerySchema true;
                    ERun c (validated !!! "query") (inr results)] |}
| query_answered c validated results w serialized :
    connection p = Some c →
    Zod.parse ExecuteQuerySchema a = inr validated →
    run c (validated !!! "query") (world p) = (inr results, w) →
    stringify results = inr serialized →
    queried a p
      {| outcome := inr {| content := [ {| type := "text"; text := serialized |} ] |};
         final := with_world p w;
         events := [ESessionCheck true; EParse ExecuteQuerySchema true;
                    ERun c (validated !!! "query") (inr results)] |}.

(** the five ways read-schemas can run from [p] on [a] *)
Inductive schemas_read (a : arguments) (p : Process) : Run CallToolResult → Prop :=
| schemas_no_session :
    connection p = None →
    schemas_read a p
      {| outcome := inl NoActiveSession; final := p; events := [ESessionCheck false] |}
| schemas_invalid c issues :
    connection p = Some c →
    Zod.parse ReadSchemasSchema a = inl issues →
    schemas_read a p
      {| outcome := inl (ValidationError issues); final := p;
         events := [ESessionCheck true; EParse ReadSchemasSchema false] |}
| tables_threw c validated msg w :
    connection p = Some c →
    Zod.parse ReadSchemasSchema a = inr validated →
    run c (tables_query (validated !!! "database_name")) (world p) = (inl msg, w) →
    schemas_read a p
      {| outcome := inl (SchemaReadFailed msg); final := with_world p w;
         events := [ESessionCheck true; EParse ReadSchemasSchema true;
                    ERun c (tables_query (validated !!! "database_name")) (inl msg)] |}
| views_threw c validated tables w msg w' :
    connection p = Some c →
    Zod.parse ReadSchemasSchema a = inr validated →
    run c (tables_query (validated !!! "database_name")) (world p) = (inr tables, w) →
    run c (views_query (validated !!! "database_name")) w = (inl msg, w') →
    schemas_read a p
      {| outcome := inl (SchemaReadFailed msg); final := with_world p w';
         events := [ESessionCheck true; EParse ReadSchemasSchema true;
                    ERun c (tables_query (validated !!! "database_name")) (inr tables);
                    ERun c (views_query (validated !!! "database_name")) (inl msg)] |}
| schemas_answered c validated tables w views w' :
    connection p = Some c →
    Zod.parse ReadSchemasSchema a = inr validated →
    run c (tables_query (validated !!! "database_name")) (world p) = (inr tables, w) →
    run c (views_query (validated !!! "database_name")) w = (inr views, w') →
    schemas_read a p
      {| outcome :=
           inr {| content :=
                    [ {| type := "text";
                         text := "Here are all tables: " +:+ LF +:+ toString tables
                                 +:+ " " +:+ LF +:+ LF +:+ " Here are all views: "
                                 +:+ toString views |} ] |};
         final := with_world p w';
         events := [ESessionCheck true; EParse ReadSchemasSchema true;
                    ERun c (tables_query (validated !!! "database_name")) (inr tables);
                    ERun c (views_query (validated !!! "database_name")) (inr views)] |}.

(** the message of an engine call that threw *)
Definition failure_of (e : event) : option string :=
  match e with
  | ECreate _ (inl msg) | EConnect _ (inl msg) | ERun _ _ (inl msg) => Some msg
  | _ => None
  end.

(** what a tool throws for an engine failure with message [msg]: the
    [catch] of its [case] *)
Definition engine_failure (tool : string) (msg : string) : thrown :=
  if bool_decide (tool = "initialize-connection") then ConnectionFailed msg
  else if bool_decide (tool = "read-schemas") then SchemaReadFailed msg
  else QueryFailed msg.

(** how many engine calls a log shows *)
Definition engine_calls (log : list event) : nat :=
  length (List.filter is_engine_event log).

(** the process with another environment *)
Definition with_env (p : Process) (environment : gmap string string) : Process :=
  {| env := environment; instance := instance p; connection := connection p;
     world := world p |}.

(** whether a call returned a result *)
Definition succeeded {A} (r : Run A) : bool :=
  match outcome r with
  | inr _ => true
  | inl _ => false
  end.

End Runs.

Arguments succeeded {E A} _.

(** ** The other handlers that [createServer] registers

    They read neither [instance] nor [connection]; each returns a value or
    throws.  [PROMPT_TEMPLATE] (imported from [./prompt.js]) and
    [zodToJsonSchema] (from the package of that name) are parameters. *)

Record ToolDescriptor (JsonSchema : Type) : Type := {
  tool_name : string;
  tool_description : string;
  inputSchema : JsonSchema
}.
Arguments tool_name {JsonSchema} _.
Arguments tool_description {JsonSchema} _.
Arguments inputSchema {JsonSchema} _.

Record PromptDescriptor : Type := {
  prompt_name : string;
  prompt_description : string
}.

Record PromptMessage : Type := { role : string; message_content : TextContent }.

Record GetPromptResult : Type := {
  description : string;
  messages : list PromptMessage
}.

Section Catalog.
Variable PROMPT_TEMPLATE : string.
Variable JsonSchema : Type.
Variable zodToJsonSchema : Zod.ZodObject → JsonSchema.

(** the handler for [ListResourcesRequestSchema]: the [resources] it returns *)
Definition listResources : list string := [].

(** the handler for [ReadResourceRequestSchema], on [request.params.uri] *)
Definition readResource (uri : string) : thrown + Empty_set :=
  inl (Error ("Unsupported URI scheme: " +:+ uri)).

(** the handler for [ListPromptsRequestSchema]: the [prompts] it returns *)
Definition listPrompts : list PromptDescriptor :=
  [ {| prompt_name := "duckdb-motherduck-initial-prompt";
       prompt_description :=
         "A prompt to initialize a connection to duckdb or motherduck and start working with it" |} ].

(** the handler for [GetPromptRequestSchema], on [request.params.name] *)
Definition getPrompt (name : string) : thrown + GetPromptResult :=
  if bool_decide (name ≠ "duckdb-motherduck-initial-prompt")
  then inl (Error ("Unknown prompt: " +:+ name))
  else inr {| description := "Initial prompt for interacting with DuckDB/MotherDuck";
              messages :=
                [ {| role := "user";
                     message_content := {| type := "text"; text := PROMPT_TEMPLATE |} |} ] |}.

(** the handler for [ListToolsRequestSchema]: the [tools] it returns *)
Definition listTools : list (ToolDescriptor JsonSchema) :=
  [ {| tool_name := "initialize-connection";
       tool_description :=
         "Create a connection to either a local DuckDB or MotherDuck and retrieve available databases";
       inputSchema := zodToJsonSchema InitializeConnectionSchema |};
    {| tool_name := "read-schemas";
       tool_description := "Get table schemas from a specific DuckDB/MotherDuck database";
       inputSchema := zodToJsonSchema ReadSchemasSchema |};
    {| tool_name := "execute-query";
       tool_description := "Execute a query on the MotherDuck (DuckDB) database";
       inputSchema := zodToJsonSchema ExecuteQuerySchema |} ].

End Catalog.

(** ** The HTTP binding ([sse.ts])

    The Express application of [sse.ts], at the level of its callbacks:
    the middleware passed to [app.use], the two route handlers, and the
    [close] listener that the [/sse] handler puts on its response.  What
    the callbacks do to Express, to the protocol server and to the
    transport is recorded as a list of actions.  Two things are inputs,
    decided outside this file: which route, if any, Express matches a
    request to, and whether [server.connect] returns or throws.  Requests
    and responses are named by numbers. *)
Module Sse.

(** [new SSEServerTransport(endpoint, res)] *)
Record SSEServerTransport : Type := { endpoint : string; response : nat }.

Inductive route : Type :=
| sse        (** [app.get('/sse', ...)] *)
| message.   (** [app.post('/message', ...)] *)

Inductive action : Type :=
| log (line : string)
| header (res : nat) (field value : string)
| sendStatus (res : nat) (code : nat)
| send (res : nat) (code : nat) (body : string)
| server_connect (t : SSEServerTransport)
| server_close
| handlePostMessage (t : SSEServerTransport) (req res : nat)
| unrouted (res : nat).   (** [next()] with no route left: Express answers *)

(** [let transport: SSEServerTransport], and the responses that carry the
    [close] listener *)
Record State : Type := {
  transport : option SSEServerTransport;
  listening : list nat
}.

(** the module as loaded *)
Definition loaded : State := {| transport := None; listening := [] |}.

(** the middleware: the three headers, and whether [next()] is called *)
Definition cors (method : string) (res : nat) : list action * bool :=
  let headers :=
    [ header res "Access-Control-Allow-Origin" "*";
      header res "Access-Control-Allow-Methods" "GET, POST, OPTIONS";
      header res "Access-Control-Allow-Headers" "Content-Type" ] in
  if bool_decide (method = "OPTIONS")
  then (headers ++ [sendStatus res 200], false)
  else (headers, true).

(** the handler of [/sse]; [connects] tells whether [server.connect]
    returns: when it throws, the listener is not put on the response *)
Definition sse_handler (res : nat) (connects : bool) (s : State) : State * list action :=
  let t := {| endpoint := "/message"; response := res |} in
  ({| transport := Some t;
      listening := if connects then res :: listening s else listening s |},
   [log "New SSE connection"; server_connect t]).

(** the handler of [/message] *)
Definition message_handler (req res : nat) (s : State) : State * list action :=
  match transport s with
  | None => (s, [send res 503 "SSE connection not established"])
  | Some t => (s, [handlePostMessage t req res])
  end.

(** the [close] event of a response *)
Definition closed (res : nat) (s : State) : State * list action :=
  if bool_decide (res ∈ listening s)
  then (s, [log "SSE connection closed"; server_close])
  else (s, []).

Inductive stimulus : Type :=
| incoming (method : string) (matched : option route) (req res : nat) (connects : bool)
| response_closed (res : nat).

(** one stimulus, through the middleware and on to the route *)
Definition app (i : stimulus) (s : State) : State * list action :=
  match i with
  | incoming method matched req res connects =>
      let '(done, next) := cors method res in
      if next then
        let '(s', did) :=
          match matched with
          | Some sse => sse_handler res connects s
          | Some message => message_handler req res s
          | None => (s, [unrouted res])
          end in
        (s', done ++ did)
      else (s, done)
  | response_closed res => closed res s
  end.

(** the state after a sequence of stimuli *)
Definition after_all (history : list stimulus) (s : State) : State :=
  foldl (fun s i => (app i s).1) s history.

(** the transports made by the [/sse] requests of a history, in order *)
Definition opened (history : list stimulus) : list SSEServerTransport :=
  omap (fun i =>
          match i with
          | incoming method (Some sse) _ res _ =>
              if bool_decide (method = "OPTIONS") then None
              else Some {| endpoint := "/message"; response := res |}
          | _ => None
          end) history.

End Sse.

(** ** A scripted engine

    An engine for running the handlers on concrete inputs.  Handles are
    numbered in the order they are given out; three switches make a
    primitive throw; the catalog is a list of attached database names, and
    the databases query is answered from it. *)
Module Scripted.

Record script : Type := {
  next_handle : nat;
  attached : list string;
  create_throws : bool;
  connect_throws : bool;
  run_throws : bool
}.

Definition fresh (w : script) : script :=
  {| next_handle := S (next_handle w); attached := attached w;
     create_throws := create_throws w; connect_throws := connect_throws w;
     run_throws := run_throws w |}.

Definition user_databases (w : script) : list string :=
  filter (fun d => d ∉ ["system"; "temp"]) (attached w).

Definition answer (sql : string) (w : script) : string :=
  if bool_decide (sql = databases_query)
  then join ("," +:+ LF) (user_databases w)
  else "".

#[export] Instance engine : Engine := {|
  World := script;
  DuckDBInstance := nat;
  DuckDBConnection := nat;
  DuckDBResult := string;
  create := fun _ w =>
    if create_throws w then (inl "IO Error: cannot open the database", w)
    else (inr (next_handle w), fresh w);
  connect := fun _ w =>
    if connect_throws w then (inl "Connection Error: instance is closed", w)
    else (inr (next_handle w), fresh w);
  run := fun _ sql w =>
    if run_throws w then (inl "Catalog Error: the statement failed", w)
    else (inr (answer sql w), w);
  toString := fun r => r;
  stringify := fun r => inr r
|}.

(** a working engine with the catalog of a fresh in-memory database *)
Definition healthy : script :=
  {| next_handle := 0; attached := ["memory"; "system"; "temp"];
     create_throws := false; connect_throws := false; run_throws := false |}.

(** an engine that connects and then fails every statement *)
Definition failing_statements : script :=
  {| next_handle := 0; attached := ["memory"; "system"; "temp"];
     create_throws := false; connect_throws := false; run_throws := true |}.

(** an engine whose instances cannot be created *)
Definition failing_create : script :=
  {| next_handle := 0; attached := [];
     create_throws := true; connect_throws := false; run_throws := false |}.

(** an engine whose instances refuse to connect *)
Definition failing_connect : script :=
  {| next_handle := 0; attached := [];
     create_throws := false; connect_throws := true; run_throws := false |}.

(** the process at load time, on this engine *)
Definition boot (environment : gmap string string) (w : script) : @Process engine :=
  @start engine environment w.

End Scripted.

(** ** An engine with result objects

    The scripted engine again, with results as [@duckdb/node-api] hands
    them out: [run] returns an object that holds the rows, of a class
    that has no [toString] of its own, so a template literal renders it
    through [Object.prototype.toString]. *)
Module ResultObjects.

(** a materialized result: its rows, each a list of column values *)
Record result : Type := { rows : list (list string) }.

Definition engine : Engine := {|
  World := Scripted.script;
  DuckDBInstance := nat;
  DuckDBConnection := nat;
  DuckDBResult := result;
  create := fun _ w =>
    if Scripted.create_throws w then (inl "IO Error: cannot open the database", w)
    else (inr (Scripted.next_handle w), Scripted.fresh w);
  connect := fun _ w =>
    if Scripted.connect_throws w then (inl "Connection Error: instance is closed", w)
    else (inr (Scripted.next_handle w), Scripted.fresh w);
  run := fun _ sql w =>
    if Scripted.run_throws w then (inl "Catalog Error: the statement failed", w)
    else (inr {| rows := [[Scripted.answer sql w]] |}, w);
  toString := fun _ => "[object Object]";
  stringify := fun _ => inr "{}"
|}.

(** the process at load time, on this engine *)
Definition boot (environment : gmap string string) (w : Scripted.script)
  : @Process engine :=
  @start engine environment w.

End ResultObjects.

(** ** Properties *)

Example normalize_examples :
  toUpperCase (trim "duckdb") = "DUCKDB" ∧ toUpperCase (trim " MotherDuck ") = "MOTHERDUCK".
Proof. split; reflexivity. Qed.

Example scripted_initialize :
  outcome (callTool "initialize-connection" (Some {[ "type" := JString "DuckDB" ]})
             (Scripted.boot ∅ Scripted.healthy))
  = inr {| content := [ {| type := "text";
                           text := "Connection to DUCKDB successfully established. Here are the available databases: "
                                   +:+ LF +:+ "memory" |} ] |}.
Proof. vm_compute. reflexivity. Qed.

(** *** What [trim] removes *)

Section Trim.
Import JsString.

Lemma strip_Some (prefix s r : list ascii) :
  strip prefix s = Some r ↔ s = prefix ++ r.
Proof.
  revert s. induction prefix as [|a prefix IH]; intros s; cbn.
  - split; congruence.
  - destruct s as [|b s]; [split; discriminate|].
    destruct (Ascii.eqb_spec a b) as [->|Hne].
    + rewrite IH. split; congruence.
    + split; [discriminate|]. intros [= ? ?]. by destruct Hne.
Qed.

Lemma strip_any_Some (sequences : list (list ascii)) (s r : list ascii) :
  strip_any sequences s = Some r → ∃ e, e ∈ sequences ∧ s = e ++ r.
Proof.
  induction sequences as [|e rest IH]; cbn; [discriminate|].
  destruct (strip e s) as [r'|] eqn:He.
  - intros [= ->]. exists e. split; [apply list_elem_of_here | by apply strip_Some].
  - intros Hrest. destruct (IH Hrest) as (e' & Hin & ->).
    exists e'. split; [by apply list_elem_of_further | done].
Qed.

Lemma strip_any_None (sequences : list (list ascii)) (s : list ascii) :
  strip_any sequences s = None → ∀ e r, e ∈ sequences → s ≠ e ++ r.
Proof.
  induction sequences as [|e rest IH]; cbn; intros Hnone e' r Hin.
  - by apply elem_of_nil in Hin.
  - destruct (strip e s) as [r'|] eqn:He; [discriminate|].
    apply elem_of_cons in Hin as [-> | Hin].
    + intros Heq. apply strip_Some in Heq. congruence.
    + by apply IH.
Qed.

Lemma drop_leading_made_of (sequences : list (list ascii)) (fuel : nat) (s : list ascii) :
  ∃ pre, made_of sequences pre ∧ s = pre ++ drop_leading sequences fuel s.
Proof.
  revert s. induction fuel as [|fuel IH]; intros s; cbn.
  - exists []. split; [by exists []|done].
  - destruct (strip_any sequences s) as [r|] eqn:Hs.
    + destruct (strip_any_Some _ _ _ Hs) as (e & Hin & ->).
      destruct (IH r) as (pre & (parts & Hparts & ->) & Hr).
      exists (e ++ concat parts). split.
      * exists (e :: parts). split; [by constructor | done].
      * rewrite <- app_assoc. by rewrite <- Hr.
    + exists []. split; [by exists []|done].
Qed.

Lemma drop_leading_done (sequences : list (list ascii)) (fuel : nat) (s : list ascii) :
  Forall (fun e => e ≠ []) sequences →
  (length s ≤ fuel)%nat →
  strip_any sequences (drop_leading sequences fuel s) = None.
Proof.
  intros Hnonempty. revert s. induction fuel as [|fuel IH]; intros s Hlen; cbn.
  - destruct s; [|cbn in Hlen; lia].
    destruct (strip_any sequences []) as [r|] eqn:Hs; [|done].
    destruct (strip_any_Some _ _ _ Hs) as (e & Hin & Heq).
    rewrite Forall_forall in Hnonempty. specialize (Hnonempty e Hin).
    destruct e; [done | discriminate].
  - destruct (strip_any sequences s) as [r|] eqn:Hs; [|done].
    apply IH. destruct (strip_any_Some _ _ _ Hs) as (e & Hin & ->).
    rewrite Forall_forall in Hnonempty. specialize (Hnonempty e Hin).
    rewrite length_app in Hlen. destruct e; [done | cbn in Hlen; lia].
Qed.

Lemma made_of_rev (sequences : list (list ascii)) (bytes : list ascii) :
  made_of (map (@rev ascii) sequences) bytes → made_of sequences (rev bytes).
Proof.
  intros (parts & Hparts & ->). induction Hparts as [|e parts He _ IH]; cbn.
  - by exists [].
  - rewrite rev_app_distr. destruct IH as (parts' & Hparts' & ->).
    apply list_elem_of_fmap in He as (e' & -> & He').
    exists (parts' ++ [rev (rev e')]). split.
    + apply Forall_app. split; [done|]. rewrite rev_involutive. by repeat constructor.
    + rewrite concat_app. cbn. by rewrite app_nil_r.
Qed.

Lemma whiteSpace_nonempty : Forall (fun e => e ≠ []) whiteSpace.
Proof. repeat constructor; discriminate. Qed.

(** [trim s] is [s] without the white space characters it starts with and
    those it ends with: all of them, and nothing else. *)
Lemma trim_spec (s : string) :
  ∃ before after,
    made_of whiteSpace before ∧
    made_of whiteSpace after ∧
    list_ascii_of_string s = before ++ list_ascii_of_string (trim s) ++ after ∧
    (∀ e r, e ∈ whiteSpace → list_ascii_of_string (trim s) ≠ e ++ r) ∧
    (∀ e r, e ∈ whiteSpace → list_ascii_of_string (trim s) ≠ r ++ e).
Proof.
  unfold trim. rewrite list_ascii_of_string_of_list_ascii.
  set (bytes := list_ascii_of_string s).
  unfold trimStart_bytes, trimEnd_bytes.
  destruct (drop_leading_made_of whiteSpace (length bytes) bytes)
    as (before & Hbefore & Hstart).
  set (t := drop_leading whiteSpace (length bytes) bytes) in *.
  destruct (drop_leading_made_of (map (@rev ascii) whiteSpace) (length t) (rev t))
    as (erased & Herased & Hend).
  set (d := drop_leading (map (@rev ascii) whiteSpace) (length t) (rev t)) in *.
  assert (t = rev d ++ rev erased) as Ht.
  { rewrite <- rev_app_distr, <- Hend. by rewrite rev_involutive. }
  exists before, (rev erased). split; [done|]. split; [by apply made_of_rev|].
  split; [by rewrite <- Ht|]. split.
  - intros e r He Heq.
    assert (strip_any whiteSpace t = None) as Hnone.
    { apply drop_leading_done; [apply whiteSpace_nonempty | done]. }
    apply (strip_any_None _ _ Hnone e (r ++ rev erased) He).
    by rewrite Ht, Heq, <- app_assoc.
  - intros e r He Heq.
    assert (strip_any (map (@rev ascii) whiteSpace) d = None) as Hnone.
    { apply drop_leading_done.
      - apply Forall_fmap. eapply Forall_impl; [apply whiteSpace_nonempty|].
        intros [|a e'] Hne; [done|]. cbn. intros Hrev.
        apply (f_equal (@length ascii)) in Hrev. rewrite length_app in Hrev.
        cbn in Hrev. lia.
      - by rewrite length_rev. }
    apply (strip_any_None _ _ Hnone (rev e) (rev r)).
    + apply list_elem_of_fmap. by exists e.
    + rewrite <- rev_app_distr, <- Heq. by rewrite rev_involutive.
Qed.

End Trim.

Section Properties.
Context `{E : Engine}.
Implicit Types (p : Process) (a : arguments) (input : gmap string jsval).

(** *** Validation of a one-field schema *)

Lemma parse_field (key : string) input (s : string) :
  input !! key = Some (JString s) →
  Zod.parse [key] (Some input) = inr {[ key := s ]}.
Proof.
  intros Hkey. unfold Zod.parse. cbn [Zod.parse_shape]. rewrite Hkey.
  by rewrite insert_empty.
Qed.

Lemma parse_field_rejected (key : string) input :
  (∀ s, input !! key ≠ Some (JString s)) →
  Zod.parse [key] (Some input)
  = inl [ {| Zod.path := [key]; Zod.expected := Zod.string_;
             Zod.received := Zod.getParsedType (default JUndefined (input !! key)) |} ].
Proof.
  intros Hkey. unfold Zod.parse. cbn [Zod.parse_shape].
  destruct (input !! key) as [[]|] eqn:Hk; try reflexivity.
  by destruct (Hkey s).
Qed.

(** *** The dispatch *)

Lemma callTool_initialize a : callTool "initialize-connection" a = initialize_connection a.
Proof. reflexivity. Qed.

Lemma callTool_read_schemas a : callTool "read-schemas" a = read_schemas a.
Proof. reflexivity. Qed.

Lemma callTool_execute_query a : callTool "execute-query" a = execute_query a.
Proof. reflexivity. Qed.

Lemma callTool_unknown (tool : string) a p :
  tool ≠ "initialize-connection" → tool ≠ "read-schemas" → tool ≠ "execute-query" →
  callTool tool a p
  = {| outcome := inl (UnknownTool tool); final := p; events := [] |}.
Proof.
  intros H1 H2 H3. unfold callTool.
  rewrite !bool_decide_eq_false_2 by done. reflexivity.
Qed.

(** *** No session *)

Lemma read_schemas_no_session a p :
  connection p = None →
  read_schemas a p
  = {| outcome := inl NoActiveSession; final := p; events := [ESessionCheck false] |}.
Proof.
  intros Hc. unfold read_schemas, bind, check_connection. cbn. rewrite Hc. reflexivity.
Qed.

Lemma execute_query_no_session a p :
  connection p = None →
  execute_query a p
  = {| outcome := inl NoActiveSession; final := p; events := [ESessionCheck false] |}.
Proof.
  intros Hc. unfold execute_query, bind, check_connection. cbn. rewrite Hc. reflexivity.
Qed.

(** *** How initialize-connection runs *)

Lemma acquire_instance_runs p :
  (∃ msg w, instance p = None ∧ create ":memory:" (world p) = (inl msg, w) ∧
     acquire_instance p
     = {| outcome := inl (Error msg); final := with_world p w;
          events := [ECreate ":memory:" (inl msg)] |})
  ∨ (∃ i p1 log, acquired p i p1 log ∧
       acquire_instance p = {| outcome := inr i; final := p1; events := log |}).
Proof.
  unfold acquire_instance, bind, read_instance. cbn.
  destruct (instance p) as [i|] eqn:Hi.
  - right. exists i, p, []. split; [by constructor|]. reflexivity.
  - unfold DuckDBInstance_create. cbn.
    destruct (create ":memory:" (world p)) as [[msg|i] w] eqn:Hcreate; cbn.
    + left. by exists msg, w.
    + right. eexists i, _, _. split; [by apply acquired_created|]. reflexivity.
Qed.

Lemma establish_runs (dbType : string) p : established dbType p (establish dbType p).
Proof.
  unfold establish, try_catch, bind.
  destruct (acquire_instance_runs p) as
    [(msg & w & Hi & Hcreate & Hrun) | (i & p1 & log & Hacq & Hrun)];
    rewrite Hrun; cbn.
  { by apply create_threw. }
  unfold instance_connect.
  destruct (connect i (world p1)) as [[msg|c] w] eqn:Hconnect; cbn.
  { rewrite app_nil_r. by apply (connect_threw dbType p i p1 log msg w). }
  unfold connection_run. cbn.
  destruct (run c databases_query w) as [[msg|databases] w'] eqn:Hquery; cbn;
    rewrite ?app_nil_r, <- ?app_assoc; cbn.
  - by apply (run_threw dbType p i p1 log c w msg w').
  - by apply (session_opened dbType p i p1 log c w databases w').
Qed.

Lemma initialize_connection_rejected a p issues :
  Zod.parse InitializeConnectionSchema a = inl issues →
  initialize_connection a p
  = {| outcome := inl (ValidationError issues); final := p;
       events := [EParse InitializeConnectionSchema false] |}.
Proof.
  intros Hparse. unfold initialize_connection, bind, parse. by rewrite Hparse.
Qed.

Lemma initialize_connection_parsed a (validated : gmap string string) p :
  Zod.parse InitializeConnectionSchema a = inr validated →
  let dbType := toUpperCase (trim (validated !!! "type")) in
  initialize_connection a p
  = if bool_decide (dbType ∈ ["DUCKDB"; "MOTHERDUCK"])
    then if bool_decide (dbType = "MOTHERDUCK") && no_token (env p)
         then {| outcome := inl MissingCredential; final := p;
                 events := [EParse InitializeConnectionSchema true] |}
         else after (EParse InitializeConnectionSchema true) (establish dbType p)
    else {| outcome := inl UnsupportedKind; final := p;
            events := [EParse InitializeConnectionSchema true] |}.
Proof.
  intros Hparse dbType. unfold initialize_connection, bind, parse.
  rewrite Hparse. cbn. fold dbType.
  destruct (bool_decide (dbType ∈ ["DUCKDB"; "MOTHERDUCK"])); cbn; [|reflexivity].
  destruct (bool_decide (dbType = "MOTHERDUCK") && no_token (env p)); reflexivity.
Qed.

Lemma initialize_connection_typed input (t : string) p :
  input !! "type" = Some (JString t) →
  let dbType := toUpperCase (trim t) in
  initialize_connection (Some input) p
  = if bool_decide (dbType ∈ ["DUCKDB"; "MOTHERDUCK"])
    then if bool_decide (dbType = "MOTHERDUCK") && no_token (env p)
         then {| outcome := inl MissingCredential; final := p;
                 events := [EParse InitializeConnectionSchema true] |}
         else after (EParse InitializeConnectionSchema true) (establish dbType p)
    else {| outcome := inl UnsupportedKind; final := p;
            events := [EParse InitializeConnectionSchema true] |}.
Proof.
  intros Htype. cbn zeta.
  rewrite (initialize_connection_parsed (Some input) {[ "type" := t ]} p
             (parse_field "type" input t Htype)).
  by rewrite lookup_total_singleton.
Qed.



(** C4. An initialize-connection call whose kind normalizes to MOTHERDUCK,
    in a process where the variable [motherduck_token] is unset, throws
    MissingCredential; the only step taken is the validation, so no
    engine primitive is called, and the process ([instance],
    [connection] and the engine state) is left as it was. *)
Theorem motherduck_needs_token input (t : string) p :
  input !! "type" = Some (JString t) →
  toUpperCase (trim t) = "MOTHERDUCK" →
  env p !! "motherduck_token" = None →
  let r := callTool "initialize-connection" (Some input) p in
  outcome r = inl MissingCredential ∧
  events r = [EParse InitializeConnectionSchema true] ∧
  Forall (fun e => is_engine_event e = false) (events r) ∧
  final r = p.
Proof.
  intros Htype Hkind Hunset. cbn zeta. rewrite callTool_initialize.
  rewrite (initialize_connection_typed input t p Htype). cbn zeta.
  rewrite Hkind. unfold no_token. rewrite Hunset. cbn.
  repeat split. by repeat constructor.
Qed.

(** C8. With the variable [motherduck_token] set to the empty string, an
    initialize-connection call whose kind normalizes to MOTHERDUCK throws
    MissingCredential, takes no step but the validation and leaves the
    process as it was: outcome and steps are those of the same call in
    the process with the variable removed. *)
Theorem empty_token_is_no_token input (t : string) p :
  input !! "type" = Some (JString t) →
  toUpperCase (trim t) = "MOTHERDUCK" →
  env p !! "motherduck_token" = Some "" →
  let r := callTool "initialize-connection" (Some input) p in
  let r0 := callTool "initialize-connection" (Some input) (unset_token p) in
  outcome r = inl MissingCredential ∧
  events r = [EParse InitializeConnectionSchema true] ∧
  final r = p ∧
  outcome r = outcome r0 ∧
  events r = events r0 ∧
  final r0 = unset_token p.
Proof.
  intros Htype Hkind Hempty. cbn zeta. rewrite !callTool_initialize.
  rewrite !(initialize_connection_typed input t _ Htype). cbn zeta.
  rewrite Hkind. unfold no_token. rewrite Hempty. cbn.
  by rewrite lookup_delete_eq.
Qed.

Lemma initialize_connection_runs a p : initialized a p (initialize_connection a p).
Proof.
  destruct (Zod.parse InitializeConnectionSchema a) as [issues|validated] eqn:Hparse.
  { rewrite (initialize_connection_rejected a p issues Hparse). by constructor. }
  rewrite (initialize_connection_parsed a validated p Hparse). cbn zeta.
  case_bool_decide as Hkind; [|by eapply init_unsupported].
  case_bool_decide as Hmother; cbn.
  - destruct (no_token (env p)) eqn:Htoken.
    + by eapply init_no_credential.
    + eapply init_established; [done..|]. apply establish_runs.
  - eapply init_established; [done..|]. apply establish_runs.
Qed.

(** C10. When, within an initialize-connection call, the creation of the
    engine instance throws or the connect primitive throws, the variable
    [connection] holds after the call what it held before (the previous
    connection, or [null]), and the call throws ConnectionFailed with
    the engine's message. *)
Theorem session_kept_when_connect_throws a p :
  let r := callTool "initialize-connection" a p in
  (∃ path msg, ECreate path (inl msg) ∈ events r) ∨
  (∃ i msg, EConnect i (inl msg) ∈ events r) →
  connection (final r) = connection p ∧
  ∃ msg, outcome r = inl (ConnectionFailed msg).
Proof.
  cbn zeta. rewrite callTool_initialize.
  destruct (initialize_connection_runs a p) as
    [issues _ | validated _ _ | validated _ _ _ | validated r _ _ Hrun];
    cbn [events final outcome after].
  1-3: intros [(path & msg & Hin) | (i & msg & Hin)];
       rewrite ?elem_of_cons, ?elem_of_nil in Hin; naive_solver.
  destruct Hrun as [msg w Hnone Hcreate
                   | i p1 log msg w Hacq Hconnect
                   | i p1 log c w msg w' Hacq Hconnect Hquery
                   | i p1 log c w databases w' Hacq Hconnect Hquery];
    cbn [events final outcome].
  - intros _. split; [reflexivity|]. by exists msg.
  - intros _. split; [|by exists msg]. by destruct Hacq.
  - intros [(path & m & Hin) | (j & m & Hin)]; destruct Hacq;
      cbn in Hin; rewrite ?elem_of_cons, ?elem_of_nil in Hin; naive_solver.
  - intros [(path & m & Hin) | (j & m & Hin)]; destruct Hacq;
      cbn in Hin; rewrite ?elem_of_cons, ?elem_of_nil in Hin; naive_solver.
Qed.

(** C5 (amended). Every successful initialize-connection call has
    replaced the Session: [connection] holds the handle that the call's
    connect returned.  Every call that fails without connect having
    returned within it leaves [connection] as it was; a call that fails
    in validation, with UnsupportedKind or with MissingCredential
    leaves the whole process as it was.  A call that throws returns no
    result. *)
Theorem session_replaced_when_connect_returns a p :
  let r := callTool "initialize-connection" a p in
  (∀ result, outcome r = inr result →
     ∃ i c, EConnect i (inr c) ∈ events r ∧ connection (final r) = Some c)
  ∧ (∀ e, outcome r = inl e →
     (∀ i c, EConnect i (inr c) ∉ events r) →
     connection (final r) = connection p)
  ∧ (∀ e, outcome r = inl e →
     e = UnsupportedKind ∨ e = MissingCredential ∨ (∃ issues, e = ValidationError issues) →
     final r = p)
  ∧ (∀ e, outcome r = inl e → ∀ result, outcome r ≠ inr result).
Proof.
  cbn zeta. rewrite callTool_initialize.
  destruct (initialize_connection_runs a p) as
    [issues _ | validated _ _ | validated _ _ _ | validated r _ _ Hrun];
    cbn [events final outcome after].
  1-3: by repeat split; intros; simplify_eq.
  destruct Hrun as [msg w Hnone Hcreate
                   | i p1 log msg w Hacq Hconnect
                   | i p1 log c w msg w' Hacq Hconnect Hquery
                   | i p1 log c w databases w' Hacq Hconnect Hquery];
    cbn [events final outcome].
  - repeat split; intros; simplify_eq; try done.
    unfold ConnectionFailed, UnsupportedKind, MissingCredential, ValidationError in *.
    naive_solver.
  - repeat split; intros; simplify_eq; try done.
    + by destruct Hacq.
    + unfold ConnectionFailed, UnsupportedKind, MissingCredential, ValidationError in *.
      naive_solver.
  - repeat split; intros; simplify_eq; try done.
    + exfalso. eapply (H0 i c). set_solver.
    + unfold ConnectionFailed, UnsupportedKind, MissingCredential, ValidationError in *.
      naive_solver.
  - repeat split; intros; simplify_eq; try done.
    exists i, c. split; [set_solver|done].
Qed.

(** the result of a successful initialize-connection call: one content
    item of type text; its text is the fixed sentence naming the
    normalized kind, a line feed, and the result of [databases_query], run
    on the connection that the call installed, put into a string *)
Lemma initialize_success_text a p (result : CallToolResult) :
  let r := callTool "initialize-connection" a p in
  outcome r = inr result →
  ∃ (validated : gmap string string) (c : DuckDBConnection) (w : World)
    (databases : DuckDBResult),
    Zod.parse InitializeConnectionSchema a = inr validated ∧
    let dbType := toUpperCase (trim (validated !!! "type")) in
    (dbType = "DUCKDB" ∨ dbType = "MOTHERDUCK") ∧
    connection (final r) = Some c ∧
    run c databases_query w = (inr databases, world (final r)) ∧
    ERun c databases_query (inr databases) ∈ events r ∧
    result
    = {| content :=
           [ {| type := "text";
                text := "Connection to " +:+ dbType
                        +:+ " successfully established. Here are the available databases: "
                        +:+ LF +:+ toString databases |} ] |}.
Proof.
  cbn zeta. rewrite callTool_initialize.
  destruct (initialize_connection_runs a p) as
    [issues _ | validated _ _ | validated _ _ _ | validated r Hparse Hkind Hrun];
    cbn [events final outcome after]; try discriminate.
  destruct Hrun as [msg w Hnone Hcreate
                   | i p1 log msg w Hacq Hconnect
                   | i p1 log c w msg w' Hacq Hconnect Hquery
                   | i p1 log c w databases w' Hacq Hconnect Hquery];
    cbn [events final outcome]; try discriminate.
  intros [= <-]. exists validated, c, w, databases. cbn.
  repeat split; try done.
  - rewrite !elem_of_cons, elem_of_nil in Hkind. tauto.
  - set_solver.
Qed.

(** C6 (code bug). The handler asks the engine for the names of the
    attached databases other than [system] and [temp], joined by a comma
    and a line feed, and then puts the result object itself into the
    text, without reading its rows.  On an engine whose result objects a
    template literal renders as [[object Object]], every successful
    initialize-connection call therefore returns the same text for a
    given kind, whatever databases are attached: the sentence naming the
    kind, a line feed, and [[object Object]].  No database name is
    listed. *)
Theorem success_text_renders_result_object a p (result : CallToolResult) :
  (∀ databases : DuckDBResult, toString databases = "[object Object]") →
  outcome (callTool "initialize-connection" a p) = inr result →
  ∃ kind : string,
    (kind = "DUCKDB" ∨ kind = "MOTHERDUCK") ∧
    result
    = {| content :=
           [ {| type := "text";
                text := "Connection to " +:+ kind
                        +:+ " successfully established. Here are the available databases: "
                        +:+ LF +:+ "[object Object]" |} ] |}.
Proof.
  intros Hrender Hok.
  destruct (initialize_success_text a p result Hok)
    as (validated & c & w & databases & _ & Hkind & _ & _ & _ & ->).
  exists (toUpperCase (trim (validated !!! "type"))). split; [exact Hkind|].
  by rewrite Hrender.
Qed.

(** *** How read-schemas and execute-query run with a session *)

Lemma read_schemas_session a (c : DuckDBConnection) p :
  connection p = Some c →
  let r := read_schemas a p in
  ∃ rest,
    events r = ESessionCheck true :: EParse ReadSchemasSchema (valid ReadSchemasSchema a) :: rest ∧
    Forall (fun e => is_engine_event e = true) rest ∧
    created_count rest = 0 ∧
    instance (final r) = instance p ∧
    connection (final r) = connection p ∧
    (valid ReadSchemasSchema a = false →
       rest = [] ∧ final r = p ∧ ∃ issues, outcome r = inl (ValidationError issues)) ∧
    (valid ReadSchemasSchema a = true → ∀ issues, outcome r ≠ inl (ValidationError issues)).
Proof.
  intros Hc. cbn zeta.
  unfold read_schemas, bind, check_connection, parse, valid. cbn. rewrite Hc. cbn.
  destruct (Zod.parse ReadSchemasSchema a) as [issues|validated]; cbn.
  { exists []. repeat split; eauto. }
  unfold try_catch, bind, connection_run. cbn.
  destruct (run c _ (world p)) as [[msg|tables] w]; cbn.
  { eexists. split; [reflexivity|]. repeat split; try done. by repeat constructor. }
  destruct (run c _ w) as [[msg|views] w']; cbn.
  all: eexists; split; [reflexivity|]; repeat split; try done; by repeat constructor.
Qed.

Lemma execute_query_session a (c : DuckDBConnection) p :
  connection p = Some c →
  let r := execute_query a p in
  ∃ rest,
    events r = ESessionCheck true :: EParse ExecuteQuerySchema (valid ExecuteQuerySchema a) :: rest ∧
    Forall (fun e => is_engine_event e = true) rest ∧
    created_count rest = 0 ∧
    instance (final r) = instance p ∧
    connection (final r) = connection p ∧
    (valid ExecuteQuerySchema a = false →
       rest = [] ∧ final r = p ∧ ∃ issues, outcome r = inl (ValidationError issues)) ∧
    (valid ExecuteQuerySchema a = true → ∀ issues, outcome r ≠ inl (ValidationError issues)).
Proof.
  intros Hc. cbn zeta.
  unfold execute_query, bind, check_connection, parse, valid. cbn. rewrite Hc. cbn.
  destruct (Zod.parse ExecuteQuerySchema a) as [issues|validated]; cbn.
  { exists []. repeat split; eauto. }
  unfold try_catch, bind, connection_run, JSON_stringify. cbn.
  destruct (run c _ (world p)) as [[msg|results] w]; cbn.
  { eexists. split; [reflexivity|]. repeat split; try done. by repeat constructor. }
  destruct (stringify results) as [msg|serialized]; cbn.
  all: eexists; split; [reflexivity|]; repeat split; try done; by repeat constructor.
Qed.

Lemma execute_query_parsed a (validated : gmap string string) (c : DuckDBConnection) p :
  connection p = Some c →
  Zod.parse ExecuteQuerySchema a = inr validated →
  events (execute_query a p)
  = [ESessionCheck true; EParse ExecuteQuerySchema true;
     ERun c (validated !!! "query") (run c (validated !!! "query") (world p)).1].
Proof.
  intros Hc Hparse.
  unfold execute_query, bind, check_connection, parse. cbn -[Zod.parse].
  rewrite Hc. cbn -[Zod.parse]. rewrite Hparse.
  unfold try_catch, bind, connection_run, JSON_stringify. cbn.
  generalize (validated !!! "query"). intros q.
  destruct (run c q (world p)) as [[msg|results] w]; cbn; [reflexivity|].
  destruct (stringify results) as [msg|serialized]; reflexivity.
Qed.

(** a valid execute-query request runs its query, and nothing else, on
    the connection held *)
Lemma execute_query_runs_on_session input (q : string) (c : DuckDBConnection) p :
  connection p = Some c →
  input !! "query" = Some (JString q) →
  events (execute_query (Some input) p)
  = [ESessionCheck true; EParse ExecuteQuerySchema true; ERun c q (run c q (world p)).1].
Proof.
  intros Hc Hq.
  rewrite (execute_query_parsed _ _ c p Hc (parse_field "query" input q Hq)).
  by rewrite lookup_total_singleton.
Qed.

(** *** Engine instances created over a sequence of requests *)

Lemma created_count_app (log1 log2 : list event) :
  created_count (log1 ++ log2) = (created_count log1 + created_count log2)%nat.
Proof. unfold created_count. by rewrite List.filter_app, length_app. Qed.

Lemma callTool_creations (tool : string) a p :
  let r := callTool tool a p in
  (created_count (events r) + creations_left (final r) ≤ creations_left p)%nat ∧
  (∀ i, instance p = Some i → instance (final r) = Some i).
Proof.
  cbn zeta.
  destruct (decide (tool = "initialize-connection")) as [->|Hi].
  { rewrite callTool_initialize.
    destruct (initialize_connection_runs a p) as
      [issues _ | validated _ _ | validated _ _ _ | validated r _ _ Hrun];
      cbn [events final outcome after].
    1-3: split; [cbn; lia | done].
    change (created_count (_ :: events r)) with (created_count (events r)).
    destruct Hrun as [msg w Hnone Hcreate
                     | i p1 log msg w Hacq Hconnect
                     | i p1 log c w msg w' Hacq Hconnect Hquery
                     | i p1 log c w databases w' Hacq Hconnect Hquery];
      cbn [events final outcome].
    { split; [unfold creations_left; cbn; lia | done]. }
    all: destruct Hacq as [i Hheld | i w0 Hnone Hcreate];
      unfold creations_left; cbn; rewrite ?Hheld, ?Hnone; split;
      first [lia | congruence]. }
  destruct (decide (tool = "read-schemas")) as [->|Hr].
  { rewrite callTool_read_schemas.
    destruct (connection p) as [c|] eqn:Hc.
    - destruct (read_schemas_session a c p Hc) as (rest & -> & _ & Hcount & Hinst & _).
      change (created_count (_ :: _ :: rest)) with (created_count rest).
      unfold creations_left. rewrite Hcount, Hinst. split; [lia | done].
    - rewrite read_schemas_no_session by done. cbn. split; [lia | done]. }
  destruct (decide (tool = "execute-query")) as [->|Hq].
  { rewrite callTool_execute_query.
    destruct (connection p) as [c|] eqn:Hc.
    - destruct (execute_query_session a c p Hc) as (rest & -> & _ & Hcount & Hinst & _).
      change (created_count (_ :: _ :: rest)) with (created_count rest).
      unfold creations_left. rewrite Hcount, Hinst. split; [lia | done].
    - rewrite execute_query_no_session by done. cbn. split; [lia | done]. }
  rewrite callTool_unknown by done. cbn. split; [lia | done].
Qed.

Lemma serve_creations (requests : list Request) p :
  (created_count (serve requests p).2 + creations_left (serve requests p).1
     ≤ creations_left p)%nat ∧
  (∀ i, instance p = Some i → instance (serve requests p).1 = Some i).
Proof.
  revert p. induction requests as [|rq rest IH]; intros p.
  { split; [cbn; lia | done]. }
  cbn [serve].
  destruct (callTool_creations (name rq) (args rq) p) as [Hstep Hkeep].
  destruct (IH (final (callTool (name rq) (args rq) p))) as [Hrest Hkeep'].
  destruct (serve rest (final (callTool (name rq) (args rq) p))) as [p' log].
  cbn [fst snd] in *. rewrite created_count_app. split; [lia | auto].
Qed.

(** C2. Requests being handled one after the other: over any sequence
    of requests, the engine instance is created at most once (never
    again once [instance] is set, and at most once from load time), and
    an instance once held is the one held ever after.  When two
    initialize-connection calls in a row succeed, the second creates
    nothing and connects the instance the first one left; after it
    [connection], the one variable that holds the Session, holds the
    handle that second connect returned, and a following valid
    execute-query request runs its query on that handle. *)
Theorem one_engine_one_session :
  (∀ (requests : list Request) p,
     (created_count (serve requests p).2 ≤ creations_left p)%nat ∧
     ∀ i, instance p = Some i → instance (serve requests p).1 = Some i)
  ∧ (∀ environment w (requests : list Request),
       (created_count (serve requests (start environment w)).2 ≤ 1)%nat)
  ∧ (∀ a1 a2 p (result1 result2 : CallToolResult),
       let r1 := callTool "initialize-connection" a1 p in
       let r2 := callTool "initialize-connection" a2 (final r1) in
       outcome r1 = inr result1 →
       outcome r2 = inr result2 →
       ∃ i c1 c2,
         instance (final r1) = Some i ∧
         connection (final r1) = Some c1 ∧
         instance (final r2) = Some i ∧
         created_count (events r2) = 0%nat ∧
         EConnect i (inr c2) ∈ events r2 ∧
         connection (final r2) = Some c2 ∧
         ∀ input (q : string),
           input !! "query" = Some (JString q) →
           events (callTool "execute-query" (Some input) (final r2))
           = [ESessionCheck true; EParse ExecuteQuerySchema true;
              ERun c2 q (run c2 q (world (final r2))).1]).
Proof.
  split; [|split].
  - intros requests p. destruct (serve_creations requests p) as [Hle Hkeep].
    split; [lia | exact Hkeep].
  - intros environment w requests.
    destruct (serve_creations requests (start environment w)) as [Hle _].
    change (creations_left (start environment w)) with 1%nat in Hle. lia.
  - intros a1 a2 p result1 result2. cbn zeta. rewrite !callTool_initialize.
    destruct (initialize_connection_runs a1 p) as
      [? _ | ? _ _ | ? _ _ _ | validated1 r1 _ _ Hrun1];
      cbn [events final outcome after]; try discriminate.
    destruct Hrun1 as [ | | | i p1 log1 c1 w1 databases1 w1' Hacq1 Hconnect1 Hquery1];
      cbn [events final outcome]; try discriminate.
    intros _.
    set (p2 := with_world (set_connection (with_world p1 w1) c1) w1').
    assert (instance p2 = Some i) as Hinst by (by destruct Hacq1).
    destruct (initialize_connection_runs a2 p2) as
      [? _ | ? _ _ | ? _ _ _ | validated2 r2 _ _ Hrun2];
      cbn [events final outcome after]; try discriminate.
    destruct Hrun2 as [ | | | j p3 log2 c2 w2 databases2 w2' Hacq2 Hconnect2 Hquery2];
      cbn [events final outcome]; try discriminate.
    intros _.
    destruct Hacq2 as [j Hheld | j w0 Hnone Hcreate]; [|congruence].
    assert (j = i) as -> by congruence.
    exists i, c1, c2. repeat split; try done.
    + set_solver.
    + intros input q Hq. rewrite callTool_execute_query.
      by rewrite (execute_query_runs_on_session input q c2).
Qed.

(** *** Validation and the order of steps *)

Lemma initialize_connection_validated_first a p :
  validated_first InitializeConnectionSchema a p (initialize_connection a p).
Proof.
  unfold validated_first, valid.
  destruct (initialize_connection_runs a p) as
    [issues Hparse | validated Hparse _ | validated Hparse _ _ | validated r Hparse _ Hrun];
    rewrite Hparse; cbn [events final outcome after].
  1-3: exists []; repeat split; eauto; discriminate.
  exists (events r). repeat split; try discriminate.
  destruct Hrun as [msg w Hnone Hcreate
                   | i p1 log msg w Hacq Hconnect
                   | i p1 log c w msg w' Hacq Hconnect Hquery
                   | i p1 log c w databases w' Hacq Hconnect Hquery];
    cbn [events]; [by repeat constructor | ..].
  all: destruct Hacq; by repeat constructor.
Qed.

Lemma read_schemas_session_gated a p :
  session_gated ReadSchemasSchema a p (read_schemas a p).
Proof.
  unfold session_gated. destruct (connection p) as [c|] eqn:Hc.
  - destruct (read_schemas_session a c p Hc) as (rest & Hev & Heng & _ & _ & _ & Hbad & _).
    by exists rest.
  - by rewrite read_schemas_no_session.
Qed.

Lemma execute_query_session_gated a p :
  session_gated ExecuteQuerySchema a p (execute_query a p).
Proof.
  unfold session_gated. destruct (connection p) as [c|] eqn:Hc.
  - destruct (execute_query_session a c p Hc) as (rest & Hev & Heng & _ & _ & _ & Hbad & _).
    by exists rest.
  - by rewrite execute_query_no_session.
Qed.

(** an engine step among steps that start with a validation comes after
    it, and the validation passed *)
Lemma engine_step_after_validation (schema : Zod.ZodObject) a
    (prefix rest before later : list event) (e : event) :
  Forall (fun e => is_engine_event e = false) prefix →
  (valid schema a = false → rest = []) →
  prefix ++ EParse schema (valid schema a) :: rest = before ++ e :: later →
  is_engine_event e = true →
  EParse schema true ∈ before ∧ valid schema a = true.
Proof.
  intros Hprefix Hbad. revert before.
  induction Hprefix as [|x prefix Hx _ IH]; intros before Heq Hengine.
  - destruct before as [|y before]; cbn in Heq; simplify_eq.
    destruct (valid schema a) eqn:Hvalid.
    + split; [set_solver | done].
    + specialize (Hbad eq_refl). by destruct before.
  - destruct before as [|y before]; cbn in Heq; simplify_eq; try congruence.
    destruct (IH before) as [Hin Hvalid]; [done..|]. split; [set_solver | done].
Qed.

(** C7 (amended). initialize-connection validates its arguments before
    any other step.  read-schemas and execute-query first test whether a
    connection is held, and without one throw NoActiveSession whatever
    the arguments are; with one, they validate next.  For all tools and
    all argument payloads, every engine call of a request comes after a
    validation that passed; a payload that fails validation causes no
    engine call and no change of the process. *)
Theorem validation_precedes_engine (tool : string) a p :
  let r := callTool tool a p in
  (tool = "initialize-connection" → validated_first InitializeConnectionSchema a p r)
  ∧ (tool = "read-schemas" → session_gated ReadSchemasSchema a p r)
  ∧ (tool = "execute-query" → session_gated ExecuteQuerySchema a p r)
  ∧ (∀ before e later,
       events r = before ++ e :: later →
       is_engine_event e = true →
       ∃ schema, EParse schema true ∈ before ∧ valid schema a = true).
Proof.
  cbn zeta. split; [|split; [|split]].
  - intros ->. apply initialize_connection_validated_first.
  - intros ->. apply read_schemas_session_gated.
  - intros ->. apply execute_query_session_gated.
  - intros before e later Heq Hengine.
    destruct (decide (tool = "initialize-connection")) as [->|Hi].
    { destruct (initialize_connection_validated_first a p) as (rest & Hev & _ & Hbad).
      rewrite callTool_initialize, Hev in Heq.
      exists InitializeConnectionSchema.
      eapply (engine_step_after_validation _ a []); [constructor| |exact Heq|done].
      intros Hv. by destruct (Hbad Hv). }
    destruct (decide (tool = "read-schemas")) as [->|Hr].
    { pose proof (read_schemas_session_gated a p) as Hgate.
      rewrite callTool_read_schemas in Heq. unfold session_gated in Hgate.
      destruct (connection p).
      - destruct Hgate as (rest & Hev & _ & Hbad). rewrite Hev in Heq.
        exists ReadSchemasSchema.
        eapply (engine_step_after_validation _ a [ESessionCheck true]);
          [by repeat constructor| |exact Heq|done].
        intros Hv. by destruct (Hbad Hv).
      - destruct Hgate as (_ & Hev & _). rewrite Hev in Heq.
        destruct before as [|? [|? ?]]; cbn in Heq; simplify_eq. }
    destruct (decide (tool = "execute-query")) as [->|Hq].
    { pose proof (execute_query_session_gated a p) as Hgate.
      rewrite callTool_execute_query in Heq. unfold session_gated in Hgate.
      destruct (connection p).
      - destruct Hgate as (rest & Hev & _ & Hbad). rewrite Hev in Heq.
        exists ExecuteQuerySchema.
        eapply (engine_step_after_validation _ a [ESessionCheck true]);
          [by repeat constructor| |exact Heq|done].
        intros Hv. by destruct (Hbad Hv).
      - destruct Hgate as (_ & Hev & _). rewrite Hev in Heq.
        destruct before as [|? [|? ?]]; cbn in Heq; simplify_eq. }
    rewrite callTool_unknown in Heq by done. cbn in Heq. by destruct before.
Qed.

(** *** Fields the schemas do not declare *)

(** a handler sees its arguments through [parse] only *)
Lemma handlers_read_parsed_arguments (a a' : arguments) p :
  (Zod.parse InitializeConnectionSchema a = Zod.parse InitializeConnectionSchema a' →
     initialize_connection a p = initialize_connection a' p)
  ∧ (Zod.parse ReadSchemasSchema a = Zod.parse ReadSchemasSchema a' →
     read_schemas a p = read_schemas a' p)
  ∧ (Zod.parse ExecuteQuerySchema a = Zod.parse ExecuteQuerySchema a' →
     execute_query a p = execute_query a' p).
Proof.
  split; [|split]; intros Hsame.
  - unfold initialize_connection, bind, parse. by rewrite Hsame.
  - unfold read_schemas, bind, check_connection. cbn -[Zod.parse].
    destruct (connection p); [|reflexivity]. unfold parse. by rewrite Hsame.
  - unfold execute_query, bind, check_connection. cbn -[Zod.parse].
    destruct (connection p); [|reflexivity]. unfold parse. by rewrite Hsame.
Qed.

Lemma valid_field (key : string) input (s : string) :
  input !! key = Some (JString s) → valid [key] (Some input) = true.
Proof. intros Hkey. unfold valid. by rewrite (parse_field key input s Hkey). Qed.

Lemma no_validation_error_when_valid (tool : string) (schema : Zod.ZodObject) a p :
  (tool = "initialize-connection" ∧ schema = InitializeConnectionSchema) ∨
  (tool = "read-schemas" ∧ schema = ReadSchemasSchema) ∨
  (tool = "execute-query" ∧ schema = ExecuteQuerySchema) →
  valid schema a = true →
  ∀ issues, outcome (callTool tool a p) ≠ inl (ValidationError issues).
Proof.
  intros [[-> ->] | [[-> ->] | [-> ->]]] Hvalid issues.
  - rewrite callTool_initialize. unfold valid in Hvalid.
    destruct (initialize_connection_runs a p) as
      [? Hparse | ? _ _ | ? _ _ _ | validated r _ _ Hrun];
      cbn [outcome after]; try discriminate.
    + by rewrite Hparse in Hvalid.
    + destruct Hrun; cbn; discriminate.
  - rewrite callTool_read_schemas. destruct (connection p) as [c|] eqn:Hc.
    + destruct (read_schemas_session a c p Hc) as (rest & _ & _ & _ & _ & _ & _ & Hok).
      by apply Hok.
    + by rewrite read_schemas_no_session.
  - rewrite callTool_execute_query. destruct (connection p) as [c|] eqn:Hc.
    + destruct (execute_query_session a c p Hc) as (rest & _ & _ & _ & _ & _ & _ & Hok).
      by apply Hok.
    + by rewrite execute_query_no_session.
Qed.

(** C9. For each of the three tools: when the arguments hold the
    required field with a string in it, together with any other fields,
    validation succeeds and yields the object with the required field
    alone; the call runs exactly as it does on the arguments without the
    other fields (same outcome, same final state, same steps), and it
    does not throw a validation error. *)
Theorem unknown_fields_are_stripped (tool : string) (schema : Zod.ZodObject)
    (key : string) input (s : string) p :
  (tool, schema, key) ∈
    [ ("initialize-connection", InitializeConnectionSchema, "type");
      ("read-schemas", ReadSchemasSchema, "database_name");
      ("execute-query", ExecuteQuerySchema, "query") ] →
  input !! key = Some (JString s) →
  Zod.parse schema (Some input) = inr {[ key := s ]} ∧
  callTool tool (Some input) p = callTool tool (Some {[ key := JString s ]}) p ∧
  ∀ issues, outcome (callTool tool (Some input) p) ≠ inl (ValidationError issues).
Proof.
  intros Htool Hkey.
  assert (Zod.parse [key] (Some input) = Zod.parse [key] (Some {[ key := JString s ]}))
    as Hsame.
  { rewrite (parse_field key input s Hkey).
    by rewrite (parse_field key {[ key := JString s ]} s (lookup_singleton_eq key _)). }
  destruct (handlers_read_parsed_arguments (Some input) (Some {[ key := JString s ]}) p)
    as (Hinit & Hread & Hexec).
  rewrite !elem_of_cons, elem_of_nil in Htool.
  destruct Htool as [Heq | [Heq | [Heq | []]]]; simplify_eq.
  - split; [by apply parse_field|]. split.
    + rewrite !callTool_initialize. by apply Hinit.
    + apply (no_validation_error_when_valid _ InitializeConnectionSchema); [tauto|].
      by apply (valid_field "type" input s).
  - split; [by apply parse_field|]. split.
    + rewrite !callTool_read_schemas. by apply Hread.
    + apply (no_validation_error_when_valid _ ReadSchemasSchema); [tauto|].
      by apply (valid_field "database_name" input s).
  - split; [by apply parse_field|]. split.
    + rewrite !callTool_execute_query. by apply Hexec.
    + apply (no_validation_error_when_valid _ ExecuteQuerySchema); [tauto|].
      by apply (valid_field "query" input s).
Qed.

(** *** The session over a sequence of requests *)

(** a call within which connect did not return leaves [connection] alone *)
Lemma callTool_keeps_session (tool : string) a p :
  (∀ i c, EConnect i (inr c) ∉ events (callTool tool a p)) →
  connection (final (callTool tool a p)) = connection p.
Proof.
  intros Hnone.
  destruct (decide (tool = "initialize-connection")) as [->|Hi].
  { rewrite callTool_initialize in *.
    destruct (initialize_connection_runs a p) as
      [issues _ | validated _ _ | validated _ _ _ | validated r _ _ Hrun];
      cbn [events final outcome after] in *; try reflexivity.
    destruct Hrun as [msg w Hnone' Hcreate
                     | i p1 log msg w Hacq Hconnect
                     | i p1 log c w msg w' Hacq Hconnect Hquery
                     | i p1 log c w databases w' Hacq Hconnect Hquery];
      cbn [events final outcome] in *.
    - reflexivity.
    - by destruct Hacq.
    - exfalso. apply (Hnone i c). set_solver.
    - exfalso. apply (Hnone i c). set_solver. }
  destruct (decide (tool = "read-schemas")) as [->|Hr].
  { rewrite callTool_read_schemas. destruct (connection p) as [c|] eqn:Hc.
    - destruct (read_schemas_session a c p Hc) as (rest & _ & _ & _ & _ & Hsame & _).
      by rewrite Hsame.
    - by rewrite read_schemas_no_session. }
  destruct (decide (tool = "execute-query")) as [->|Hq].
  { rewrite callTool_execute_query. destruct (connection p) as [c|] eqn:Hc.
    - destruct (execute_query_session a c p Hc) as (rest & _ & _ & _ & _ & Hsame & _).
      by rewrite Hsame.
    - by rewrite execute_query_no_session. }
  by rewrite callTool_unknown.
Qed.

Lemma serve_keeps_session (history : list Request) p :
  (∀ i c, EConnect i (inr c) ∉ (serve history p).2) →
  connection (serve history p).1 = connection p.
Proof.
  revert p. induction history as [|rq rest IH]; intros p Hnone; [reflexivity|].
  cbn [serve] in *.
  specialize (IH (final (callTool (name rq) (args rq) p))).
  destruct (serve rest (final (callTool (name rq) (args rq) p))) as [p' log].
  cbn [fst snd] in *.
  rewrite IH.
  - apply callTool_keeps_session. intros i c Hin. apply (Hnone i c). set_solver.
  - intros i c Hin. apply (Hnone i c). set_solver.
Qed.

(** C1 (amended). While no Session exists (the variable [connection] is
    [null]), every read-schemas and every execute-query request, whatever
    its arguments, throws NoActiveSession; the only step taken is the test
    of [connection]: no engine primitive is called and the process is left
    as it was, so no connection is opened on the caller's behalf.  No
    Session exists from load time on for as long as connect has not
    returned within an initialize-connection call: whatever requests were
    handled before. *)
Theorem no_session_fails (history : list Request) p (tool : string) a :
  connection p = None →
  (∀ i c, EConnect i (inr c) ∉ (serve history p).2) →
  tool = "read-schemas" ∨ tool = "execute-query" →
  let p' := (serve history p).1 in
  let r := callTool tool a p' in
  connection p' = None ∧
  outcome r = inl NoActiveSession ∧
  events r = [ESessionCheck false] ∧
  final r = p'.
Proof.
  intros Hc Hnone Htool. cbn zeta.
  assert (connection (serve history p).1 = None) as Hstill.
  { by rewrite (serve_keeps_session history p Hnone). }
  split; [exact Hstill|].
  destruct Htool as [-> | ->].
  - by rewrite callTool_read_schemas, read_schemas_no_session.
  - by rewrite callTool_execute_query, execute_query_no_session.
Qed.

End Properties.

(** ** The properties on the scripted engine *)

Section OnScriptedEngine.
Import Scripted.

(** C1 at work: the engine refuses to connect, so an initialize-connection
    request fails; after it and a request for an unknown tool, read-schemas
    without arguments throws NoActiveSession. *)
Lemma no_session_fails_witness :
  let p := boot ∅ failing_connect in
  let history :=
    [ {| name := "initialize-connection"; args := Some {[ "type" := JString "duckdb" ]} |};
      {| name := "list-tables"; args := None |} ] in
  let p' := (serve history p).1 in
  let r := callTool "read-schemas" None p' in
  connection p' = None ∧ outcome r = inl NoActiveSession ∧
  events r = [ESessionCheck false] ∧ final r = p'.
Proof.
  intros p history.
  apply (@no_session_fails engine history p "read-schemas" None).
  - reflexivity.
  - intros i c Hin.
    assert ((serve history p).2
            = [EParse InitializeConnectionSchema true;
               ECreate ":memory:" (inr 0);
               EConnect 0 (inl "Connection Error: instance is closed")])
      as Hlog by reflexivity.
    rewrite Hlog in Hin. rewrite !elem_of_cons, elem_of_nil in Hin.
    destruct Hin as [Hin | [Hin | [Hin | []]]]; discriminate Hin.
  - left. reflexivity.
Defined.


(** C4 at work: MotherDuck without the variable. *)
Lemma motherduck_needs_token_witness :
  let p := boot ∅ healthy in
  let r := callTool "initialize-connection" (Some {[ "type" := JString "MotherDuck" ]}) p in
  outcome r = inl MissingCredential ∧
  events r = [EParse InitializeConnectionSchema true] ∧
  Forall (fun e => is_engine_event e = false) (events r) ∧
  final r = p.
Proof.
  apply (@motherduck_needs_token engine _ "MotherDuck"); reflexivity.
Defined.

(** C8 at work: MotherDuck with the variable set to the empty string. *)
Lemma empty_token_is_no_token_witness :
  let p := boot {[ "motherduck_token" := "" ]} healthy in
  let r := callTool "initialize-connection" (Some {[ "type" := JString "motherduck" ]}) p in
  let r0 := callTool "initialize-connection" (Some {[ "type" := JString "motherduck" ]})
              (unset_token p) in
  outcome r = inl MissingCredential ∧
  events r = [EParse InitializeConnectionSchema true] ∧
  final r = p ∧
  outcome r = outcome r0 ∧
  events r = events r0 ∧
  final r0 = unset_token p.
Proof.
  apply (@empty_token_is_no_token engine _ "motherduck"); reflexivity.
Defined.

(** C10 at work: a session is held, the engine refuses to connect. *)
Lemma session_kept_when_connect_throws_witness :
  let p := set_connection (boot ∅ failing_connect) 7 in
  let r := callTool "initialize-connection" (Some {[ "type" := JString "duckdb" ]}) p in
  connection (final r) = Some 7 ∧
  ∃ msg, outcome r = inl (ConnectionFailed msg).
Proof.
  apply (@session_kept_when_connect_throws engine
           (Some {[ "type" := JString "duckdb" ]})
           (set_connection (boot ∅ failing_connect) 7)).
  right. exists 0, "Connection Error: instance is closed".
  vm_compute. repeat constructor.
Defined.

(** C2 at work: two initialize-connection calls in a row on a working
    engine, then an execute-query. *)
Lemma one_engine_one_session_witness :
  let p := boot ∅ healthy in
  let r1 := callTool "initialize-connection" (Some {[ "type" := JString "duckdb" ]}) p in
  let r2 := callTool "initialize-connection" (Some {[ "type" := JString " DUCKDB " ]})
              (final r1) in
  ∃ result1 result2,
    outcome r1 = inr result1 ∧
    outcome r2 = inr result2 ∧
    ∃ i c1 c2,
      instance (final r1) = Some i ∧
      connection (final r1) = Some c1 ∧
      instance (final r2) = Some i ∧
      created_count (events r2) = 0%nat ∧
      EConnect i (inr c2) ∈ events r2 ∧
      connection (final r2) = Some c2 ∧
      ∀ (input : gmap string jsval) (q : string),
        input !! "query" = Some (JString q) →
        events (callTool "execute-query" (Some input) (final r2))
        = [ESessionCheck true; EParse ExecuteQuerySchema true;
           ERun c2 q (run c2 q (world (final r2))).1].
Proof.
  intros p r1 r2.
  assert (∃ result1, outcome r1 = inr result1) as [result1 H1]
    by (eexists; vm_compute; reflexivity).
  assert (∃ result2, outcome r2 = inr result2) as [result2 H2]
    by (eexists; vm_compute; reflexivity).
  exists result1, result2. split; [exact H1|]. split; [exact H2|].
  exact (proj2 (proj2 (@one_engine_one_session engine)) _ _ p result1 result2 H1 H2).
Defined.

(** C5 (amended) at work: a session is held, the engine cannot create
    its instance. *)
Lemma session_replaced_when_connect_returns_witness :
  let p := set_connection (boot ∅ failing_create) 3 in
  let r := callTool "initialize-connection" (Some {[ "type" := JString "DuckDB" ]}) p in
  outcome r = inl (ConnectionFailed "IO Error: cannot open the database") ∧
  connection (final r) = Some 3.
Proof.
  intros p r. split; [reflexivity|].
  destruct (@session_replaced_when_connect_returns engine
              (Some {[ "type" := JString "DuckDB" ]}) p) as (_ & Hkept & _).
  apply (Hkept (ConnectionFailed "IO Error: cannot open the database")).
  - reflexivity.
  - intros i c Hin.
    assert (events r = [EParse InitializeConnectionSchema true;
                        ECreate ":memory:" (inl "IO Error: cannot open the database")])
      as Hevents by reflexivity.
    change (EConnect i (inr c) ∈ events r) in Hin. rewrite Hevents in Hin.
    rewrite !elem_of_cons, elem_of_nil in Hin.
    destruct Hin as [Hin | [Hin | []]]; discriminate Hin.
Defined.

(** C6 at work: a fresh in-memory database has one database besides
    [system] and [temp], named [memory]; the engine's answer to the
    databases query holds that name, the text returned does not. *)
Lemma success_text_renders_result_object_witness :
  let p := ResultObjects.boot ∅ healthy in
  let r := callTool "initialize-connection" (Some {[ "type" := JString "DuckDB" ]}) p in
  (@run ResultObjects.engine 1 databases_query (world (final r))).1
  = inr {| ResultObjects.rows := [["memory"]] |} ∧
  ∃ result,
    outcome r = inr result ∧
    ∃ kind : string,
      (kind = "DUCKDB" ∨ kind = "MOTHERDUCK") ∧
      result
      = {| content :=
             [ {| type := "text";
                  text := "Connection to " +:+ kind
                          +:+ " successfully established. Here are the available databases: "
                          +:+ LF +:+ "[object Object]" |} ] |}.
Proof.
  intros p r. split; [vm_compute; reflexivity|].
  assert (∃ result, outcome r = inr result) as [result Hok]
    by (eexists; vm_compute; reflexivity).
  exists result. split; [exact Hok|].
  apply (@success_text_renders_result_object ResultObjects.engine
           (Some {[ "type" := JString "DuckDB" ]}) p result); [|exact Hok].
  intros databases. reflexivity.
Defined.

(** C7 (amended) at work: execute-query without the [query] field, a
    session being held: the session is tested, the validation fails, and
    nothing else happens. *)
Lemma validation_precedes_engine_witness :
  let p := set_connection (boot ∅ healthy) 1 in
  session_gated ExecuteQuerySchema (Some ∅) p (callTool "execute-query" (Some ∅) p).
Proof.
  intros p.
  exact (proj1 (proj2 (proj2 (@validation_precedes_engine engine "execute-query" (Some ∅) p)))
           eq_refl).
Defined.

(** C9 at work: read-schemas with a field the schema does not declare. *)
Lemma unknown_fields_are_stripped_witness :
  let input : gmap string jsval :=
    <[ "limit" := JNumber 5 ]> {[ "database_name" := JString "memory" ]} in
  let p := set_connection (boot ∅ healthy) 1 in
  Zod.parse ReadSchemasSchema (Some input) = inr {[ "database_name" := "memory" ]} ∧
  callTool "read-schemas" (Some input) p
  = callTool "read-schemas" (Some {[ "database_name" := JString "memory" ]}) p ∧
  ∀ issues, outcome (callTool "read-schemas" (Some input) p) ≠ inl (ValidationError issues).
Proof.
  intros input p.
  apply (@unknown_fields_are_stripped engine "read-schemas" ReadSchemasSchema
           "database_name" input "memory" p).
  - apply list_elem_of_further, list_elem_of_here.
  - reflexivity.
Defined.

(** *** Where the code departs from the claims *)

(** C1 as stated fails: on an engine that connects and then fails the
    databases query, the one initialize-connection request made so far
    has failed, so no initialize-connection call has succeeded; and yet a
    Session is held, and neither execute-query nor read-schemas throws
    NoActiveSession: both go on to the engine. *)
Lemma session_held_after_failed_initialize :
  let p := boot ∅ failing_statements in
  let r0 := callTool "initialize-connection" (Some {[ "type" := JString "duckdb" ]}) p in
  let p' := (serve [ {| name := "initialize-connection";
                        args := Some {[ "type" := JString "duckdb" ]} |} ] p).1 in
  let r1 := callTool "execute-query" (Some {[ "query" := JString "SELECT 1" ]}) p' in
  let r2 := callTool "read-schemas" (Some {[ "database_name" := JString "memory" ]}) p' in
  outcome r0 = inl (ConnectionFailed "Catalog Error: the statement failed") ∧
  p' = final r0 ∧
  connection p' = Some 1 ∧
  outcome r1 = inl (QueryFailed "Catalog Error: the statement failed") ∧
  outcome r1 ≠ inl NoActiveSession ∧
  events r1 = [ESessionCheck true; EParse ExecuteQuerySchema true;
               ERun 1 "SELECT 1" (inl "Catalog Error: the statement failed")] ∧
  outcome r2 = inl (SchemaReadFailed "Catalog Error: the statement failed") ∧
  outcome r2 ≠ inl NoActiveSession.
Proof.
  cbv zeta. repeat apply conj;
    first [ vm_compute; reflexivity | vm_compute; discriminate ].
Qed.

(** C5 as stated fails: on an engine that connects and then fails the
    databases query, initialize-connection throws, and yet [connection],
    [null] before the call, holds the new connection after it. *)
Lemma failed_initialize_replaces_session :
  let p := boot ∅ failing_statements in
  let r := callTool "initialize-connection" (Some {[ "type" := JString "duckdb" ]}) p in
  outcome r = inl (ConnectionFailed "Catalog Error: the statement failed") ∧
  connection p = None ∧
  connection (final r) = Some 1 ∧
  connection (final r) ≠ connection p.
Proof. repeat split. discriminate. Qed.

(** C7 as stated fails: execute-query without the [query] field, no
    session being held: the arguments are invalid, and yet the only step
    taken is the test of [connection]; the call throws NoActiveSession,
    and no validation takes place.  With a session held, the test of
    [connection] still comes before the validation. *)
Lemma session_check_precedes_validation :
  let p := boot ∅ healthy in
  let r := callTool "execute-query" (Some ∅) p in
  let r' := callTool "execute-query" (Some ∅) (set_connection p 1) in
  valid ExecuteQuerySchema (Some ∅) = false ∧
  events r = [ESessionCheck false] ∧
  outcome r = inl NoActiveSession ∧
  ¬ validation_is_first_step r ∧
  events r' = [ESessionCheck true; EParse ExecuteQuerySchema false] ∧
  ¬ validation_is_first_step r'.
Proof.
  repeat split.
  - intros (schema & ok & rest & Hev). discriminate Hev.
  - intros (schema & ok & rest & Hev). discriminate Hev.
Qed.

End OnScriptedEngine.

(** ** Further properties of the handlers *)

Section Coverage.
Context `{E : Engine}.
Implicit Types (p : Process) (a : arguments) (input : gmap string jsval).

Lemma execute_query_runs a p : queried a p (execute_query a p).
Proof.
  unfold execute_query, bind, check_connection. cbn -[Zod.parse].
  destruct (connection p) as [c|] eqn:Hc; cbn -[Zod.parse]; [|by constructor].
  unfold parse.
  destruct (Zod.parse ExecuteQuerySchema a) as [issues|validated] eqn:Hparse;
    cbn -[Zod.parse]; [by eapply query_invalid|].
  unfold try_catch, bind, connection_run, JSON_stringify. cbn.
  destruct (run c (validated !!! "query") (world p)) as [[msg|results] w] eqn:Hrun; cbn.
  { by eapply query_threw. }
  destruct (stringify results) as [msg|serialized] eqn:Hjson; cbn.
  - by eapply query_unserializable.
  - by eapply query_answered.
Qed.

Lemma read_schemas_runs a p : schemas_read a p (read_schemas a p).
Proof.
  unfold read_schemas, bind, check_connection. cbn -[Zod.parse].
  destruct (connection p) as [c|] eqn:Hc; cbn -[Zod.parse]; [|by constructor].
  unfold parse.
  destruct (Zod.parse ReadSchemasSchema a) as [issues|validated] eqn:Hparse;
    cbn -[Zod.parse]; [by eapply schemas_invalid|].
  unfold try_catch, bind, connection_run. cbn.
  destruct (run c (tables_query (validated !!! "database_name")) (world p))
    as [[msg|tables] w] eqn:Htables; cbn.
  { by eapply tables_threw. }
  destruct (run c (views_query (validated !!! "database_name")) w)
    as [[msg|views] w'] eqn:Hviews; cbn.
  - exact (views_threw a p c validated tables w msg w' Hc Hparse Htables Hviews).
  - exact (schemas_answered a p c validated tables w views w' Hc Hparse Htables Hviews).
Qed.

(** every call runs in one of the ways listed for its tool *)
Lemma callTool_runs (tool : string) a p :
  (tool = "initialize-connection" ∧ initialized a p (callTool tool a p)) ∨
  (tool = "read-schemas" ∧ schemas_read a p (callTool tool a p)) ∨
  (tool = "execute-query" ∧ queried a p (callTool tool a p)) ∨
  ((tool ∉ ["initialize-connection"; "read-schemas"; "execute-query"]) ∧
   callTool tool a p = {| outcome := inl (UnknownTool tool); final := p; events := [] |}).
Proof.
  destruct (decide (tool = "initialize-connection")) as [->|Hi].
  { left. split; [done|]. rewrite callTool_initialize. apply initialize_connection_runs. }
  destruct (decide (tool = "read-schemas")) as [->|Hr].
  { right; left. split; [done|]. rewrite callTool_read_schemas. apply read_schemas_runs. }
  destruct (decide (tool = "execute-query")) as [->|Hq].
  { do 2 right; left. split; [done|]. rewrite callTool_execute_query.
    apply execute_query_runs. }
  do 3 right. split; [|by apply callTool_unknown].
  rewrite !elem_of_cons, elem_of_nil. tauto.
Qed.

(** X1. With a session held, execute-query hands the [query] string to the
    engine as it is, on the connection held, in one call, and makes no
    other engine call.  What the engine throws, and what the
    serialization of the result throws, comes back as QueryFailed with
    that message; otherwise the one text item holds the serialized
    result.  In every case the process is the one before the call with
    the engine state the query left. *)
Theorem execute_query_passes_query_through input (q : string) (c : DuckDBConnection) p :
  connection p = Some c →
  input !! "query" = Some (JString q) →
  let r := callTool "execute-query" (Some input) p in
  let answer := (run c q (world p)).1 in
  events r = [ESessionCheck true; EParse ExecuteQuerySchema true; ERun c q answer] ∧
  final r = with_world p (run c q (world p)).2 ∧
  outcome r
  = match answer with
    | inl msg => inl (QueryFailed msg)
    | inr results =>
        match stringify results with
        | inl msg => inl (QueryFailed msg)
        | inr serialized =>
            inr {| content := [ {| type := "text"; text := serialized |} ] |}
        end
    end.
Proof.
  intros Hc Hq. cbn zeta. rewrite callTool_execute_query.
  pose proof (parse_field "query" input q Hq) as Hparse.
  destruct (execute_query_runs (Some input) p) as
    [Hnone | c' issues Hc' Hbad | c' validated msg w Hc' Hok Hrun
     | c' validated results w msg Hc' Hok Hrun Hjson
     | c' validated results w serialized Hc' Hok Hrun Hjson];
    cbn [events final outcome].
  - congruence.
  - unfold ExecuteQuerySchema in Hbad. congruence.
  - unfold ExecuteQuerySchema in Hok. simplify_eq.
    assert (validated !!! "query" = q) as Hfield.
    { assert (validated = {[ "query" := q ]}) as -> by congruence.
      apply lookup_total_singleton_eq. }
    rewrite Hfield in *. by rewrite Hrun.
  - unfold ExecuteQuerySchema in Hok. simplify_eq.
    assert (validated !!! "query" = q) as Hfield.
    { assert (validated = {[ "query" := q ]}) as -> by congruence.
      apply lookup_total_singleton_eq. }
    rewrite Hfield in *. rewrite Hrun. cbn. by rewrite Hjson.
  - unfold ExecuteQuerySchema in Hok. simplify_eq.
    assert (validated !!! "query" = q) as Hfield.
    { assert (validated = {[ "query" := q ]}) as -> by congruence.
      apply lookup_total_singleton_eq. }
    rewrite Hfield in *. rewrite Hrun. cbn. by rewrite Hjson.
Qed.

(** X2. With a session held, read-schemas runs the tables query and then,
    only when that one returned, the views query, both on the connection
    held and both with the [database_name] string put between the quotes
    as it is; the views query runs in the engine state the tables query
    left.  The first engine call that throws ends the request with
    SchemaReadFailed and its message; otherwise the one text item holds
    both results under their two labels. *)
Theorem read_schemas_runs_two_queries input (d : string) (c : DuckDBConnection) p :
  connection p = Some c →
  input !! "database_name" = Some (JString d) →
  let r := callTool "read-schemas" (Some input) p in
  let first := run c (tables_query d) (world p) in
  let second := run c (views_query d) first.2 in
  match first.1 with
  | inl msg =>
      events r = [ESessionCheck true; EParse ReadSchemasSchema true;
                  ERun c (tables_query d) (inl msg)] ∧
      final r = with_world p first.2 ∧
      outcome r = inl (SchemaReadFailed msg)
  | inr tables =>
      events r = [ESessionCheck true; EParse ReadSchemasSchema true;
                  ERun c (tables_query d) (inr tables);
                  ERun c (views_query d) second.1] ∧
      final r = with_world p second.2 ∧
      outcome r
      = match second.1 with
        | inl msg => inl (SchemaReadFailed msg)
        | inr views =>
            inr {| content :=
                     [ {| type := "text";
                          text := "Here are all tables: " +:+ LF +:+ toString tables
                                  +:+ " " +:+ LF +:+ LF +:+ " Here are all views: "
                                  +:+ toString views |} ] |}
        end
  end.
Proof.
  intros Hc Hd. cbn zeta. rewrite callTool_read_schemas.
  pose proof (parse_field "database_name" input d Hd) as Hparse.
  destruct (read_schemas_runs (Some input) p) as
    [Hnone | c' issues Hc' Hbad | c' validated msg w Hc' Hok Htables
     | c' validated tables w msg w' Hc' Hok Htables Hviews
     | c' validated tables w views w' Hc' Hok Htables Hviews];
    cbn [events final outcome].
  - congruence.
  - unfold ReadSchemasSchema in Hbad. congruence.
  - unfold ReadSchemasSchema in Hok. simplify_eq.
    assert (validated !!! "database_name" = d) as Hfield.
    { assert (validated = {[ "database_name" := d ]}) as -> by congruence.
      apply lookup_total_singleton_eq. }
    rewrite Hfield in *. by rewrite Htables.
  - unfold ReadSchemasSchema in Hok. simplify_eq.
    assert (validated !!! "database_name" = d) as Hfield.
    { assert (validated = {[ "database_name" := d ]}) as -> by congruence.
      apply lookup_total_singleton_eq. }
    rewrite Hfield in *. rewrite Htables. cbn. by rewrite Hviews.
  - unfold ReadSchemasSchema in Hok. simplify_eq.
    assert (validated !!! "database_name" = d) as Hfield.
    { assert (validated = {[ "database_name" := d ]}) as -> by congruence.
      apply lookup_total_singleton_eq. }
    rewrite Hfield in *. rewrite Htables. cbn. by rewrite Hviews.
Qed.

(** X3. What a tool call can throw depends on the tool alone:
    initialize-connection throws a validation error, UnsupportedKind,
    MissingCredential or ConnectionFailed; read-schemas throws
    NoActiveSession, a validation error or SchemaReadFailed; execute-query
    throws NoActiveSession, a validation error or QueryFailed; any other
    name throws UnknownTool with that name. *)
Theorem failure_kinds_per_tool (tool : string) a p (e : thrown) :
  outcome (callTool tool a p) = inl e →
  (tool = "initialize-connection" ∧
     ((∃ issues, e = ValidationError issues) ∨ e = UnsupportedKind ∨
      e = MissingCredential ∨ ∃ msg, e = ConnectionFailed msg)) ∨
  (tool = "read-schemas" ∧
     (e = NoActiveSession ∨ (∃ issues, e = ValidationError issues) ∨
      ∃ msg, e = SchemaReadFailed msg)) ∨
  (tool = "execute-query" ∧
     (e = NoActiveSession ∨ (∃ issues, e = ValidationError issues) ∨
      ∃ msg, e = QueryFailed msg)) ∨
  ((tool ∉ ["initialize-connection"; "read-schemas"; "execute-query"]) ∧
     e = UnknownTool tool).
Proof.
  intros Hthrown.
  destruct (callTool_runs tool a p) as
    [[-> Hrun] | [[-> Hrun] | [[-> Hrun] | [Hother Hrun]]]].
  - left. split; [done|]. destruct Hrun as [| | |validated r _ _ Hest];
      cbn [outcome after] in Hthrown; simplify_eq; eauto.
    destruct Hest; cbn [outcome] in Hthrown; simplify_eq; eauto 6.
  - right; left. split; [done|].
    destruct Hrun; cbn [outcome] in Hthrown; simplify_eq; eauto.
  - do 2 right; left. split; [done|].
    destruct Hrun; cbn [outcome] in Hthrown; simplify_eq; eauto.
  - do 3 right. rewrite Hrun in Hthrown. cbn in Hthrown. by simplify_eq.
Qed.

(** X4. No call is retried and nothing follows a failure: within one
    request an engine call that throws is the last step taken, and the
    request throws the tool's own failure kind with the engine's message
    appended as it is.  A request makes at most three engine calls. *)
Theorem engine_failure_ends_request (tool : string) a p :
  let r := callTool tool a p in
  (engine_calls (events r) ≤ 3)%nat ∧
  ∀ before e later (msg : string),
    events r = before ++ e :: later →
    failure_of e = Some msg →
    later = [] ∧ outcome r = inl (engine_failure tool msg).
Proof.
  cbn zeta.
  destruct (callTool_runs tool a p) as
    [[-> Hrun] | [[-> Hrun] | [[-> Hrun] | [Hother Hrun]]]].
  - destruct Hrun as [| | |validated r _ _ Hest]; cbn [events outcome after].
    1-3: split; [cbn; lia|]; intros before e later msg Heq Hfail;
         destruct before as [|? [|? ?]]; cbn in *; simplify_eq; cbn in *; by simplify_eq.
    destruct Hest as [msg w Hnone Hcreate
                     | i p1 log msg w Hacq Hconnect
                     | i p1 log c w msg w' Hacq Hconnect Hquery
                     | i p1 log c w databases w' Hacq Hconnect Hquery];
      cbn [events outcome].
    { split; [cbn; lia|]. intros before e later m Heq Hfail.
      destruct before as [|? [|? [|? ?]]]; cbn in *; simplify_eq; cbn in *; by simplify_eq. }
    all: destruct Hacq as [i Hheld | i w0 Hnone Hcreate];
      (split; [cbn; lia|]); intros before e later m Heq Hfail;
      destruct before as [|? [|? [|? [|? [|? ?]]]]]; cbn in *; simplify_eq; cbn in *; by simplify_eq.
  - destruct Hrun; cbn [events outcome]; (split; [cbn; lia|]);
      intros before e later m Heq Hfail;
      destruct before as [|? [|? [|? [|? [|? ?]]]]]; cbn in *; simplify_eq; cbn in *; by simplify_eq.
  - destruct Hrun; cbn [events outcome]; (split; [cbn; lia|]);
      intros before e later m Heq Hfail;
      destruct before as [|? [|? [|? [|? [|? ?]]]]]; cbn in *; simplify_eq; cbn in *; by simplify_eq.
  - rewrite Hrun. cbn [events outcome]. split; [cbn; lia|].
    intros before e later m Heq Hfail. by destruct before.
Qed.

(** one call: what it leaves alone *)
Lemma callTool_frame (tool : string) a p :
  let r := callTool tool a p in
  env (final r) = env p ∧
  (tool ≠ "initialize-connection" →
     instance (final r) = instance p ∧ connection (final r) = connection p) ∧
  (is_Some (connection p) → is_Some (connection (final r))) ∧
  ((is_Some (connection p) → is_Some (instance p)) →
   is_Some (connection (final r)) → is_Some (instance (final r))).
Proof.
  cbn zeta.
  destruct (callTool_runs tool a p) as
    [[-> Hrun] | [[-> Hrun] | [[-> Hrun] | [Hother Hrun]]]].
  - destruct Hrun as [| | |validated r _ _ Hest]; cbn [final after]; [done..|].
    destruct Hest as [msg w Hnone Hcreate
                     | i p1 log msg w Hacq Hconnect
                     | i p1 log c w msg w' Hacq Hconnect Hquery
                     | i p1 log c w databases w' Hacq Hconnect Hquery];
      cbn [final]; [done|..].
    all: destruct Hacq as [i Hheld | i w0 Hnone Hcreate]; cbn;
      rewrite ?Hheld; repeat split; eauto; done.
  - destruct Hrun; cbn [final]; repeat split; eauto.
  - destruct Hrun; cbn [final]; repeat split; eauto.
  - rewrite Hrun. cbn [final]. repeat split; eauto.
Qed.

(** X5. Whatever requests are handled, [process.env] is never written;
    and requests other than initialize-connection change neither
    [instance] nor [connection]: read-schemas, execute-query and unknown
    tools can only change the state of the engine. *)
Theorem handlers_write_only_the_session (requests : list Request) p :
  env (serve requests p).1 = env p ∧
  (Forall (fun rq => name rq ≠ "initialize-connection") requests →
   instance (serve requests p).1 = instance p ∧
   connection (serve requests p).1 = connection p).
Proof.
  revert p. induction requests as [|rq rest IH]; intros p; [done|].
  cbn [serve].
  destruct (callTool_frame (name rq) (args rq) p) as (Henv & Hkeep & _).
  destruct (IH (final (callTool (name rq) (args rq) p))) as [Henv' Hkeep'].
  destruct (serve rest (final (callTool (name rq) (args rq) p))) as [p' log].
  cbn [fst snd] in *. split; [congruence|].
  intros Hall. apply Forall_cons in Hall as [Hrq Hrest].
  destruct (Hkeep Hrq) as [Hi Hc]. destruct (Hkeep' Hrest) as [Hi' Hc'].
  split; congruence.
Qed.

(** a sequence of calls: the session stays, and stays backed by an instance *)
Lemma serve_keeps_a_session (requests : list Request) p :
  (is_Some (connection p) → is_Some (connection (serve requests p).1)) ∧
  ((is_Some (connection p) → is_Some (instance p)) →
   is_Some (connection (serve requests p).1) → is_Some (instance (serve requests p).1)).
Proof.
  revert p. induction requests as [|rq rest IH]; intros p; [done|].
  cbn [serve].
  destruct (callTool_frame (name rq) (args rq) p) as (_ & _ & Hstay & Hbacked).
  destruct (IH (final (callTool (name rq) (args rq) p))) as [Hstay' Hbacked'].
  destruct (serve rest (final (callTool (name rq) (args rq) p))) as [p' log].
  cbn [fst snd] in *. split; [auto|]. intros Hinv. apply Hbacked'. by apply Hbacked.
Qed.

(** X6. A session, once held, is never dropped: after any further
    requests, failed ones included, [connection] still holds a
    connection, and no request throws NoActiveSession any more. *)
Theorem session_is_never_dropped (requests : list Request) p (tool : string) a :
  is_Some (connection p) →
  let p' := (serve requests p).1 in
  is_Some (connection p') ∧
  outcome (callTool tool a p') ≠ inl NoActiveSession.
Proof.
  intros Hheld. cbn zeta.
  destruct (serve_keeps_a_session requests p) as [Hstay _].
  specialize (Hstay Hheld). split; [exact Hstay|].
  destruct Hstay as [c Hc].
  destruct (callTool_runs tool a (serve requests p).1) as
    [[-> Hrun] | [[-> Hrun] | [[-> Hrun] | [Hother Hrun]]]].
  - destruct Hrun as [| | |validated r _ _ Hest]; cbn [outcome after]; try discriminate.
    destruct Hest; cbn [outcome]; discriminate.
  - destruct Hrun; cbn [outcome]; try discriminate. congruence.
  - destruct Hrun; cbn [outcome]; try discriminate. congruence.
  - rewrite Hrun. cbn [outcome]. discriminate.
Qed.

(** X7. From load time on, whatever requests are handled, a session is
    never held without an engine instance being held too. *)
Theorem session_implies_instance (environment : gmap string string) (w : World)
    (requests : list Request) :
  let p := (serve requests (start environment w)).1 in
  is_Some (connection p) → is_Some (instance p).
Proof.
  cbn zeta. apply serve_keeps_a_session. cbn. by intros [? ?].
Qed.

(** what the log of a call says about creating and connecting *)
Lemma instance_creation_facts (tool : string) a p :
  let r := callTool tool a p in
  (∀ path x, ECreate path x ∈ events r →
     tool = "initialize-connection" ∧ instance p = None ∧ path = ":memory:")
  ∧ (∀ path i, ECreate path (inr i) ∈ events r → instance (final r) = Some i)
  ∧ (∀ path msg, ECreate path (inl msg) ∈ events r → instance (final r) = None)
  ∧ (∀ i x, EConnect i x ∈ events r →
       tool = "initialize-connection" ∧ instance (final r) = Some i)
  ∧ (tool = "initialize-connection" →
     instance p = None →
     ∀ e, e ∈ events r → is_engine_event e = true →
     ∃ x, ECreate ":memory:" x ∈ events r).
Proof.
  cbn zeta.
  destruct (callTool_runs tool a p) as
    [[-> Hrun] | [[-> Hrun] | [[-> Hrun] | [Hother Hrun]]]].
  - destruct Hrun as [| | |validated r _ _ Hest]; cbn [events final after].
    1-3: repeat split; intros;
         repeat match goal with
                | H : _ ∈ _ |- _ => rewrite ?elem_of_cons, ?elem_of_nil in H
                end; naive_solver.
    destruct Hest as [msg w Hnone Hcreate
                     | i p1 log msg w Hacq Hconnect
                     | i p1 log c w msg w' Hacq Hconnect Hquery
                     | i p1 log c w databases w' Hacq Hconnect Hquery];
      cbn [events final].
    { repeat split; intros;
        repeat match goal with
               | H : _ ∈ _ |- _ => rewrite ?elem_of_cons, ?elem_of_nil in H
               end; try naive_solver.
      exists (inl msg). rewrite !elem_of_cons. auto. }
    all: destruct Hacq as [i Hheld | i w0 Hnone Hcreate]; cbn;
      repeat split; intros;
      repeat match goal with
             | H : _ ∈ _ |- _ => rewrite ?elem_of_cons, ?elem_of_nil in H
             end; try naive_solver;
      eexists; apply list_elem_of_further, list_elem_of_here.
  - destruct Hrun; cbn [events final]; repeat split; intros;
      repeat match goal with
             | H : _ ∈ _ |- _ => rewrite ?elem_of_cons, ?elem_of_nil in H
             end; naive_solver.
  - destruct Hrun; cbn [events final]; repeat split; intros;
      repeat match goal with
             | H : _ ∈ _ |- _ => rewrite ?elem_of_cons, ?elem_of_nil in H
             end; naive_solver.
  - rewrite Hrun. cbn [events final]. repeat split; intros;
      repeat match goal with
             | H : _ ∈ _ |- _ => rewrite ?elem_of_cons, ?elem_of_nil in H
             end; naive_solver.
Qed.

(** while [instance] is [null], the first engine call that
    initialize-connection makes is the create *)
Lemma initialize_creates_first a p :
  instance p = None →
  ∀ before e later,
    events (initialize_connection a p) = before ++ e :: later →
    is_engine_event e = true →
    (∃ x, e = ECreate ":memory:" x ∧
          Forall (fun e' => is_engine_event e' = false) before) ∨
    (∃ x, ECreate ":memory:" x ∈ before).
Proof.
  intros Habsent before e later Heq Hengine.
  destruct (initialize_connection_runs a p) as [| | |validated r _ _ Hest];
    cbn [events after] in Heq.
  1-3: destruct before as [|? [|? ?]]; cbn in *; simplify_eq; cbn in *; by simplify_eq.
  destruct Hest as [msg w Hnone Hcreate
                   | i p1 log msg w Hacq Hconnect
                   | i p1 log c w msg w' Hacq Hconnect Hquery
                   | i p1 log c w databases w' Hacq Hconnect Hquery];
    cbn [events] in Heq;
    try (destruct Hacq as [i Hheld | i w0 Hnone Hcreate]; [congruence|]);
    cbn in Heq.
  all: destruct before as [|? [|? [|? [|? [|? ?]]]]]; cbn in *; simplify_eq;
    cbn in *; simplify_eq;
    first [ left; eexists; split; [reflexivity | by repeat constructor]
          | right; eexists; apply list_elem_of_further, list_elem_of_here ].
Qed.

(** X8. Only initialize-connection creates an engine instance or connects,
    and it creates one exactly when none is held: a create is called only
    while [instance] is [null], always for [:memory:]; and while
    [instance] is [null] the first engine call that initialize-connection
    makes is the create, every other engine call of the request coming
    after it.  The instance created is kept in [instance] whatever
    happens later in the call (connect or the databases query throwing
    included); when the creation throws, [instance] stays [null].  Every
    connect is made on the instance held after the call. *)
Theorem instance_created_only_when_absent (tool : string) a p :
  let r := callTool tool a p in
  (∀ path x, ECreate path x ∈ events r →
     tool = "initialize-connection" ∧ instance p = None ∧ path = ":memory:")
  ∧ (∀ path i, ECreate path (inr i) ∈ events r → instance (final r) = Some i)
  ∧ (∀ path msg, ECreate path (inl msg) ∈ events r → instance (final r) = None)
  ∧ (∀ i x, EConnect i x ∈ events r →
       tool = "initialize-connection" ∧ instance (final r) = Some i)
  ∧ (tool = "initialize-connection" →
     instance p = None →
     ∀ e, e ∈ events r → is_engine_event e = true →
     ∃ x, ECreate ":memory:" x ∈ events r)
  ∧ (tool = "initialize-connection" →
     instance p = None →
     ∀ before e later,
       events r = before ++ e :: later →
       is_engine_event e = true →
       (∃ x, e = ECreate ":memory:" x ∧
             Forall (fun e' => is_engine_event e' = false) before) ∨
       (∃ x, ECreate ":memory:" x ∈ before)).
Proof.
  cbn zeta.
  destruct (instance_creation_facts tool a p) as (H1 & H2 & H3 & H4 & H5).
  split; [exact H1|]. split; [exact H2|]. split; [exact H3|].
  split; [exact H4|]. split; [exact H5|].
  intros -> Habsent. rewrite callTool_initialize.
  by apply initialize_creates_first.
Qed.

(** the [try] block of initialize-connection reads neither the kind (but
    for the text) nor the environment *)
Lemma establish_kind_and_env (d1 d2 : string) p (environment : gmap string string) :
  let r1 := establish d1 p in
  let r2 := establish d2 (with_env p environment) in
  events r1 = events r2 ∧
  final r2 = with_env (final r1) environment ∧
  match outcome r1, outcome r2 with
  | inl e1, inl e2 => e1 = e2
  | inr result1, inr result2 =>
      ∃ databases,
        result1
        = {| content :=
               [ {| type := "text";
                    text := "Connection to " +:+ d1
                            +:+ " successfully established. Here are the available databases: "
                            +:+ LF +:+ toString databases |} ] |} ∧
        result2
        = {| content :=
               [ {| type := "text";
                    text := "Connection to " +:+ d2
                            +:+ " successfully established. Here are the available databases: "
                            +:+ LF +:+ toString databases |} ] |}
  | _, _ => False
  end.
Proof.
  cbn zeta.
  destruct (establish_runs d1 p) as
    [msg w Hnone Hcreate
    | i p1 log msg w Hacq Hconnect
    | i p1 log c w msg w' Hacq Hconnect Hquery
    | i p1 log c w databases w' Hacq Hconnect Hquery];
    destruct (establish_runs d2 (with_env p environment)) as
    [msg2 w2 Hnone2 Hcreate2
    | i2 p2 log2 msg2 w2 Hacq2 Hconnect2
    | i2 p2 log2 c2 w2 msg2 w2' Hacq2 Hconnect2 Hquery2
    | i2 p2 log2 c2 w2 databases2 w2' Hacq2 Hconnect2 Hquery2];
    try destruct Hacq as [i Hheld | i w0 Hnone Hcreate];
    try destruct Hacq2 as [i2 Hheld2 | i2 w02 Hnone2 Hcreate2];
    cbn [with_env set_instance set_connection with_world
         env instance connection world outcome final events] in *;
    repeat match goal with
           | H1 : ?x = _, H2 : ?x = _ |- _ => rewrite H1 in H2; simplify_eq
           end;
    try done.
  all: repeat split; by eexists.
Qed.

(** X9. The kind and the credential do not reach the engine.  A call with
    kind MOTHERDUCK, in a process whose [motherduck_token] is set to
    anything but the empty string, makes the very engine calls, with the
    very results, that a call with kind DUCKDB makes from the same state
    under any environment: the instance is created for [:memory:] in both,
    the two fail together and with the same error, and when they succeed
    their texts differ in the name of the kind only. *)
Theorem kind_only_names_the_session input1 input2 (t1 t2 : string) p
    (environment : gmap string string) :
  input1 !! "type" = Some (JString t1) →
  input2 !! "type" = Some (JString t2) →
  toUpperCase (trim t1) = "DUCKDB" →
  toUpperCase (trim t2) = "MOTHERDUCK" →
  no_token environment = false →
  let r1 := callTool "initialize-connection" (Some input1) p in
  let r2 := callTool "initialize-connection" (Some input2) (with_env p environment) in
  events r1 = events r2 ∧
  final r2 = with_env (final r1) environment ∧
  (∀ e, outcome r1 = inl e ↔ outcome r2 = inl e) ∧
  (∀ result1, outcome r1 = inr result1 →
     ∃ databases,
       result1
       = {| content :=
              [ {| type := "text";
                   text := "Connection to DUCKDB successfully established. Here are the available databases: "
                           +:+ LF +:+ toString databases |} ] |} ∧
       outcome r2
       = inr {| content :=
                  [ {| type := "text";
                       text := "Connection to MOTHERDUCK successfully established. Here are the available databases: "
                               +:+ LF +:+ toString databases |} ] |}).
Proof.
  intros Ht1 Ht2 Hk1 Hk2 Htoken. cbn zeta. rewrite !callTool_initialize.
  rewrite (initialize_connection_typed input1 t1 p Ht1).
  rewrite (initialize_connection_typed input2 t2 (with_env p environment) Ht2).
  cbn zeta. rewrite Hk1, Hk2. cbn [env with_env]. rewrite Htoken.
  change (bool_decide ("DUCKDB" ∈ ["DUCKDB"; "MOTHERDUCK"])) with true.
  change (bool_decide ("MOTHERDUCK" ∈ ["DUCKDB"; "MOTHERDUCK"])) with true.
  change (bool_decide ("DUCKDB" = "MOTHERDUCK")) with false.
  change (bool_decide ("MOTHERDUCK" = "MOTHERDUCK")) with true.
  cbn [andb after events final outcome].
  destruct (establish_kind_and_env "DUCKDB" "MOTHERDUCK" p environment)
    as (Hevents & Hfinal & Hout).
  rewrite Hevents, Hfinal. repeat split.
  - intros Hthrown. rewrite Hthrown in Hout.
    destruct (outcome (establish "MOTHERDUCK" (with_env p environment))); [by subst|done].
  - intros Hthrown. rewrite Hthrown in Hout.
    destruct (outcome (establish "DUCKDB" p)); [by subst|done].
  - intros result1 Hok. rewrite Hok in Hout.
    destruct (outcome (establish "MOTHERDUCK" (with_env p environment))) as [|result2];
      [done|].
    destruct Hout as (databases & -> & ->). by exists databases.
Qed.

End Coverage.

(** ** The catalog handlers and the dispatcher *)

Section CatalogProperties.
Context `{E : Engine}.
Variable PROMPT_TEMPLATE : string.
Variable JsonSchema : Type.
Variable zodToJsonSchema : Zod.ZodObject → JsonSchema.

(** X10. The tools that the list handler announces are the tools that the
    call handler serves, under the very names announced (no trimming, no
    change of case): a name on the list never yields UnknownTool, any
    other name yields UnknownTool with that name and nothing else
    happens; and the input schema announced for a tool is made from the
    schema its handler validates with. *)
Theorem tools_listed_are_tools_served (tool : string) (a : arguments) (p : Process) :
  let tools := listTools JsonSchema zodToJsonSchema in
  map tool_name tools = ["initialize-connection"; "read-schemas"; "execute-query"] ∧
  (tool ∉ map tool_name tools →
     callTool tool a p
     = {| outcome := inl (UnknownTool tool); final := p; events := [] |}) ∧
  (tool ∈ map tool_name tools →
     outcome (callTool tool a p) ≠ inl (UnknownTool tool)) ∧
  (∀ d schema ok,
     d ∈ tools →
     EParse schema ok ∈ events (callTool (tool_name d) a p) →
     inputSchema d = zodToJsonSchema schema).
Proof.
  cbn zeta. split; [reflexivity|]. split; [|split].
  - intros Hout. cbn in Hout. rewrite !elem_of_cons, elem_of_nil in Hout.
    apply callTool_unknown; tauto.
  - intros Hin. cbn in Hin. rewrite !elem_of_cons, elem_of_nil in Hin.
    destruct Hin as [-> | [-> | [-> | []]]].
    + rewrite callTool_initialize.
      destruct (initialize_connection_runs a p) as [| | |validated r _ _ Hest];
        cbn [outcome after]; try discriminate.
      destruct Hest; cbn [outcome]; discriminate.
    + rewrite callTool_read_schemas.
      destruct (read_schemas_runs a p); cbn [outcome]; discriminate.
    + rewrite callTool_execute_query.
      destruct (execute_query_runs a p); cbn [outcome]; discriminate.
  - intros d schema ok Hd Hparse. unfold listTools in Hd.
    rewrite !elem_of_cons, elem_of_nil in Hd.
    destruct Hd as [-> | [-> | [-> | []]]]; cbn [tool_name inputSchema] in *.
    + rewrite callTool_initialize in Hparse.
      destruct (initialize_connection_runs a p) as [| | |validated r _ _ Hest];
        cbn [events after] in Hparse.
      4: destruct Hest as [ | ? ? ? ? ? Hacq | ? ? ? ? ? ? ? Hacq | ? ? ? ? ? ? ? Hacq];
           cbn [events] in Hparse; try destruct Hacq; cbn in Hparse.
      all: rewrite ?elem_of_cons, ?elem_of_nil in Hparse; naive_solver.
    + rewrite callTool_read_schemas in Hparse.
      destruct (read_schemas_runs a p); cbn [events] in Hparse;
        rewrite ?elem_of_cons, ?elem_of_nil in Hparse; naive_solver.
    + rewrite callTool_execute_query in Hparse.
      destruct (execute_query_runs a p); cbn [events] in Hparse;
        rewrite ?elem_of_cons, ?elem_of_nil in Hparse; naive_solver.
Qed.

(** X11. The prompts that the list handler announces are the prompts that
    the get handler serves: a name on the list is answered with one
    message, of role user, whose text is the template; any other name,
    however close, throws with that name in the message. *)
Theorem prompts_listed_are_prompts_served (n : string) :
  (n ∈ map prompt_name listPrompts →
     ∃ result,
       getPrompt PROMPT_TEMPLATE n = inr result ∧
       messages result
       = [ {| role := "user";
              message_content := {| type := "text"; text := PROMPT_TEMPLATE |} |} ])
  ∧ (n ∉ map prompt_name listPrompts →
     getPrompt PROMPT_TEMPLATE n = inl (Error ("Unknown prompt: " +:+ n))).
Proof.
  unfold getPrompt. cbn [map listPrompts prompt_name]. rewrite list_elem_of_singleton.
  split.
  - intros ->. rewrite bool_decide_eq_false_2 by (intros H; by apply H).
    eexists. split; reflexivity.
  - intros Hn. by rewrite bool_decide_eq_true_2.
Qed.

End CatalogProperties.

(** ** The HTTP binding *)

Section SseProperties.
Import Sse.

Lemma app_keeps_transport (i : stimulus) (s : State) :
  transport (app i s).1
  = match opened [i] with
    | t :: _ => Some t
    | [] => transport s
    end.
Proof.
  destruct i as [method matched req res connects | res]; unfold opened; cbn.
  - unfold cors.
    destruct (bool_decide (method = "OPTIONS")); destruct matched as [[]|]; cbn;
      try reflexivity.
    unfold message_handler. destruct (transport s) eqn:Ht; cbn; by rewrite ?Ht.
  - unfold closed. by case_bool_decide.
Qed.

Lemma after_all_transport (history : list stimulus) (s : State) :
  transport (after_all history s)
  = match last (opened history) with
    | Some t => Some t
    | None => transport s
    end.
Proof.
  induction history as [|i history IH] using rev_ind; [reflexivity|].
  unfold after_all, opened in *. rewrite foldl_snoc, omap_app.
  rewrite app_keeps_transport. fold (opened [i]).
  destruct (opened [i]) as [|t [|? ?]] eqn:Hi.
  - rewrite app_nil_r. exact IH.
  - by rewrite last_snoc.
  - exfalso. destruct i as [method [[]|] ? ? ?|]; cbn in Hi;
      try case_bool_decide; discriminate.
Qed.

(** X12. Over any sequence of requests and closed responses since the
    module was loaded: a request that reaches the [/message] handler is
    answered 503 exactly when no request has reached the [/sse] handler
    before; otherwise it is handed to the transport made for the latest
    such request, also after that response has closed and also when
    connecting it threw.  The handler leaves the state as it is. *)
Theorem messages_go_to_latest_transport (history : list stimulus) (method : string)
    (req res : nat) (connects : bool) :
  method ≠ "OPTIONS" →
  let s := after_all history loaded in
  let r := app (incoming method (Some message) req res connects) s in
  transport s = last (opened history) ∧
  r.1 = s ∧
  r.2 = (cors method res).1 ++
        match last (opened history) with
        | None => [send res 503 "SSE connection not established"]
        | Some t => [handlePostMessage t req res]
        end.
Proof.
  intros Hmethod. cbn zeta.
  assert (transport (after_all history loaded) = last (opened history)) as Htransport.
  { rewrite after_all_transport. by destruct (last (opened history)). }
  split; [exact Htransport|].
  cbn [app]. unfold cors. rewrite bool_decide_eq_false_2 by done.
  unfold message_handler. rewrite Htransport.
  by destruct (last (opened history)).
Qed.

End SseProperties.

(** ** The further properties on the scripted engine *)

Section CoverageOnScriptedEngine.
Import Scripted.

(** X1 at work: a query with blanks around it, on a working engine. *)
Lemma execute_query_passes_query_through_witness :
  let p := set_connection (boot ∅ healthy) 1 in
  let r := callTool "execute-query" (Some {[ "query" := JString "  SELECT 1 ;" ]}) p in
  events r = [ESessionCheck true; EParse ExecuteQuerySchema true;
              ERun 1 "  SELECT 1 ;" (inr "")] ∧
  final r = p ∧
  outcome r = inr {| content := [ {| type := "text"; text := "" |} ] |}.
Proof.
  apply (@execute_query_passes_query_through engine
           {[ "query" := JString "  SELECT 1 ;" ]} "  SELECT 1 ;" 1
           (set_connection (boot ∅ healthy) 1)); reflexivity.
Defined.

(** X2 at work: the engine fails every statement, so the tables query is
    the only one run. *)
Lemma read_schemas_runs_two_queries_witness :
  let p := set_connection (boot ∅ failing_statements) 1 in
  let r := callTool "read-schemas" (Some {[ "database_name" := JString "memory" ]}) p in
  events r = [ESessionCheck true; EParse ReadSchemasSchema true;
              ERun 1 (tables_query "memory") (inl "Catalog Error: the statement failed")] ∧
  final r = p ∧
  outcome r = inl (SchemaReadFailed "Catalog Error: the statement failed").
Proof.
  apply (@read_schemas_runs_two_queries engine
           {[ "database_name" := JString "memory" ]} "memory" 1
           (set_connection (boot ∅ failing_statements) 1)); reflexivity.
Defined.

(** X3 at work: what execute-query throws when the engine fails. *)
Lemma failure_kinds_per_tool_witness :
  let p := set_connection (boot ∅ failing_statements) 1 in
  let e := QueryFailed "Catalog Error: the statement failed" in
  outcome (callTool "execute-query" (Some {[ "query" := JString "SELECT 1" ]}) p) = inl e ∧
  (e = NoActiveSession ∨ (∃ issues, e = ValidationError issues) ∨ ∃ msg, e = QueryFailed msg).
Proof.
  intros p e.
  assert (outcome (callTool "execute-query" (Some {[ "query" := JString "SELECT 1" ]}) p)
          = inl e) as Hthrown by reflexivity.
  split; [exact Hthrown|].
  destruct (@failure_kinds_per_tool engine _ _ _ _ Hthrown)
    as [[Hname _] | [[Hname _] | [[_ Hkinds] | [Hname _]]]].
  - discriminate Hname.
  - discriminate Hname.
  - exact Hkinds.
  - exfalso. apply Hname. apply list_elem_of_further, list_elem_of_further, list_elem_of_here.
Defined.

(** X4 at work: the engine refuses to connect; the connect is the last
    step of the request. *)
Lemma engine_failure_ends_request_witness :
  let p := boot ∅ failing_connect in
  let r := callTool "initialize-connection" (Some {[ "type" := JString "duckdb" ]}) p in
  events r = [EParse InitializeConnectionSchema true; ECreate ":memory:" (inr 0)]
             ++ EConnect 0 (inl "Connection Error: instance is closed") :: [] ∧
  outcome r = inl (ConnectionFailed "Connection Error: instance is closed").
Proof.
  intros p r.
  assert (events r = [EParse InitializeConnectionSchema true; ECreate ":memory:" (inr 0)]
                     ++ EConnect 0 (inl "Connection Error: instance is closed") :: [])
    as Hevents by reflexivity.
  split; [exact Hevents|].
  exact (proj2 (proj2 (@engine_failure_ends_request engine "initialize-connection" _ p)
                  _ _ _ "Connection Error: instance is closed" Hevents eq_refl)).
Defined.

(** X5 at work: two requests that are not initialize-connection. *)
Lemma handlers_write_only_the_session_witness :
  let p := set_connection (boot {[ "motherduck_token" := "t" ]} healthy) 1 in
  let requests :=
    [ {| name := "execute-query"; args := Some {[ "query" := JString "SELECT 1" ]} |};
      {| name := "read-schemas"; args := None |} ] in
  env (serve requests p).1 = env p ∧
  instance (serve requests p).1 = instance p ∧
  connection (serve requests p).1 = connection p.
Proof.
  intros p requests.
  destruct (@handlers_write_only_the_session engine requests p) as [Henv Hkeep].
  split; [exact Henv|]. apply Hkeep. repeat constructor; discriminate.
Defined.

(** X6 at work: a session is held, a second initialize-connection fails
    at connect; execute-query still does not throw NoActiveSession. *)
Lemma session_is_never_dropped_witness :
  let p := set_connection (boot ∅ failing_connect) 1 in
  let requests :=
    [ {| name := "initialize-connection"; args := Some {[ "type" := JString "duckdb" ]} |} ] in
  let p' := (serve requests p).1 in
  is_Some (connection p') ∧
  outcome (callTool "execute-query" None p') ≠ inl NoActiveSession.
Proof.
  apply (@session_is_never_dropped engine). by exists 1.
Defined.

(** X7 at work: after a successful initialize-connection. *)
Lemma session_implies_instance_witness :
  let p := (serve [ {| name := "initialize-connection";
                       args := Some {[ "type" := JString "duckdb" ]} |} ]
              (boot ∅ healthy)).1 in
  is_Some (connection p) ∧ is_Some (instance p).
Proof.
  intros p.
  assert (is_Some (connection p)) as Hheld by (by exists 1).
  split; [exact Hheld|].
  exact (@session_implies_instance engine ∅ healthy _ Hheld).
Defined.

(** X8 at work: the instance is created, then connect throws; the instance
    is kept. *)
Lemma instance_created_only_when_absent_witness :
  let p := boot ∅ failing_connect in
  let r := callTool "initialize-connection" (Some {[ "type" := JString "duckdb" ]}) p in
  ECreate ":memory:" (inr 0) ∈ events r ∧ instance p = None ∧ instance (final r) = Some 0.
Proof.
  intros p r.
  assert (ECreate ":memory:" (inr 0) ∈ events r) as Hin.
  { apply list_elem_of_further, list_elem_of_here. }
  destruct (@instance_created_only_when_absent engine "initialize-connection"
              (Some {[ "type" := JString "duckdb" ]}) p) as (Honly & Hkept & _).
  split; [exact Hin|]. split.
  - exact (proj1 (proj2 (Honly _ _ Hin))).
  - exact (Hkept _ _ Hin).
Defined.

(** X9 at work: DuckDB without a token and MotherDuck with one. *)
Lemma kind_only_names_the_session_witness :
  let p := boot ∅ healthy in
  let environment : gmap string string := {[ "motherduck_token" := "secret" ]} in
  let r1 := callTool "initialize-connection" (Some {[ "type" := JString "DuckDB" ]}) p in
  let r2 := callTool "initialize-connection" (Some {[ "type" := JString "MotherDuck" ]})
              (with_env p environment) in
  events r1 = events r2 ∧ final r2 = with_env (final r1) environment.
Proof.
  intros p environment.
  destruct (@kind_only_names_the_session engine
              {[ "type" := JString "DuckDB" ]} {[ "type" := JString "MotherDuck" ]}
              "DuckDB" "MotherDuck" p environment)
    as (Hevents & Hfinal & _); try reflexivity.
  split; [exact Hevents | exact Hfinal].
Defined.

(** X10 at work: a tool name in capitals is not served. *)
Lemma tools_listed_are_tools_served_witness :
  let p := boot ∅ healthy in
  callTool "Execute-Query" None p
  = {| outcome := inl (UnknownTool "Execute-Query"); final := p; events := [] |}.
Proof.
  intros p.
  apply (proj1 (proj2 (@tools_listed_are_tools_served engine Zod.ZodObject (fun s => s)
                         "Execute-Query" None p))).
  cbn. rewrite !elem_of_cons, elem_of_nil.
  intros [H | [H | [H | []]]]; discriminate H.
Defined.

(** X11 at work: the prompt that is listed, with a template of one line. *)
Lemma prompts_listed_are_prompts_served_witness :
  ∃ result,
    getPrompt "You are a helpful assistant." "duckdb-motherduck-initial-prompt" = inr result ∧
    messages result
    = [ {| role := "user";
           message_content :=
             {| type := "text"; text := "You are a helpful assistant." |} |} ].
Proof.
  apply (proj1 (prompts_listed_are_prompts_served "You are a helpful assistant."
                  "duckdb-motherduck-initial-prompt")).
  apply list_elem_of_here.
Defined.

(** X12 at work: two clients open [/sse], the response of the second one
    closes, and a message comes in: it still goes to the second transport. *)
Lemma messages_go_to_latest_transport_witness :
  let history :=
    [ Sse.incoming "GET" (Some Sse.sse) 1 10 true;
      Sse.incoming "GET" (Some Sse.sse) 2 20 true;
      Sse.response_closed 20 ] in
  let s := Sse.after_all history Sse.loaded in
  let r := Sse.app (Sse.incoming "POST" (Some Sse.message) 3 30 true) s in
  Sse.transport s = Some {| Sse.endpoint := "/message"; Sse.response := 20 |} ∧
  r.1 = s ∧
  r.2 = (Sse.cors "POST" 30).1
        ++ [Sse.handlePostMessage {| Sse.endpoint := "/message"; Sse.response := 20 |} 3 30].
Proof.
  apply (messages_go_to_latest_transport
           [ Sse.incoming "GET" (Some Sse.sse) 1 10 true;
             Sse.incoming "GET" (Some Sse.sse) 2 20 true;
             Sse.response_closed 20 ] "POST" 3 30 true).
  discriminate.
Defined.

End CoverageOnScriptedEngine.
